(** * swiftplay-analysis: the crawl engine of data/IRON_IV

    A shallow embedding of the rate limiter and the retrying request loop
    ([api_client.py]), of the record store ([data_manager.py]) and of the
    breadth-first scheduler with its aggregation and entry point
    ([main.py]), of the rank categories of the analysis ([common.py]) and
    of the merge of the shards ([data_aggregator.py]), followed by the
    properties of the specification that concern them and by further
    properties of the code.

    Conventions.
    - Python floats holding seconds are exact rationals ([Q]); integers of
      the payloads are [Z]; counters and lengths are [nat] or [Z].
    - A [deque] is a list whose head is the left end.
    - A CSV file is the list of its rows, [None] when the file is missing;
      a row read back from a file is the row that was written.
    - Exceptions are values of [exn]; code that can raise returns [res]. *)

From Stdlib Require Import ZArith QArith Lqa Lia List String.
From stdpp Require Import gmap strings list pretty.

Local Open Scope string_scope.
Local Open Scope list_scope.

(** ** api_client.py: class RateLimit *)

Module RateLimit.
Local Open Scope Q_scope.

Record t := mk {
  requests_per_second : nat;
  requests_per_2min : nat;
  request_times_short : list Q;   (* for per-second tracking *)
  request_times_long : list Q     (* for 2-minute tracking *)
}.

(** [__init__] *)
Definition init (requests_per_second requests_per_2min : nat) : t :=
  mk requests_per_second requests_per_2min [] [].

(** [x > y] on floats. *)
Definition Qgtb (x y : Q) : bool := negb (Qle_bool x y).

(** [while times and current_time - times[0] > window: times.popleft()] *)
Fixpoint popleft_old (window current_time : Q) (times : list Q) : list Q :=
  match times with
  | [] => []
  | oldest :: rest =>
      if Qgtb (current_time - oldest) window
      then popleft_old window current_time rest
      else times
  end.

(** One of the two blocks
    [if len(times) >= limit:
         wait_time = window - (current_time - times[0])
         if wait_time > 0: time.sleep(wait_time)].
    The result is the duration handed to [time.sleep] ([0] when [sleep] is
    not called); [None] is the [IndexError] of [times[0]] on an empty
    deque. *)
Definition wait_for (limit : nat) (window current_time : Q) (times : list Q)
  : option Q :=
  if (limit <=? length times)%nat then
    match times with
    | [] => None
    | oldest :: _ =>
        let wait_time := window - (current_time - oldest) in
        Some (if Qgtb wait_time 0 then wait_time else 0)
    end
  else Some 0.

Record granted := {
  limiter : t;          (* the limiter after the call *)
  slept_short : Q;      (* argument of the first [time.sleep] *)
  slept_long : Q;       (* argument of the second [time.sleep] *)
  recorded : Q          (* the timestamp appended to both windows *)
}.

(** [wait_if_needed].  [current_time] is the first reading of [time.time()];
    the second reading, taken after the sleeps, is the first one plus the
    time slept plus [lag], the time that went by besides the requested
    sleeps.  The second wait is computed from the first reading, as in the
    source. *)
Definition wait_if_needed (self : t) (current_time lag : Q) : option granted :=
  let short := popleft_old 1 current_time (request_times_short self) in
  let long := popleft_old 120 current_time (request_times_long self) in
  match wait_for (requests_per_second self) 1 current_time short with
  | None => None
  | Some w1 =>
      match wait_for (requests_per_2min self) 120 current_time long with
      | None => None
      | Some w2 =>
          let current_time' := current_time + w1 + w2 + lag in
          Some {| limiter := mk (requests_per_second self) (requests_per_2min self)
                                (short ++ [current_time']) (long ++ [current_time']);
                  slept_short := w1; slept_long := w2;
                  recorded := current_time' |}
      end
  end.

(** A sequence of calls.  Each call is given by [gap], the time between the
    previous recording (or [start]) and the call's first clock reading, and
    by its [lag]. *)
Fixpoint run_calls (self : t) (last : Q) (calls : list (Q * Q)) : option (t * Q) :=
  match calls with
  | [] => Some (self, last)
  | (gap, lag) :: rest =>
      match wait_if_needed self (last + gap) lag with
      | None => None
      | Some g => run_calls (limiter g) (recorded g) rest
      end
  end.

(** Number of timestamps younger than [window] at time [now]. *)
Fixpoint younger (window now : Q) (times : list Q) : nat :=
  match times with
  | [] => O
  | ts :: rest =>
      ((if Qgtb window (now - ts) then 1 else 0) + younger window now rest)%nat
  end.

(** The clock moves strictly forward between a recording and the next call,
    and a sleep lasts at least as long as requested. *)
Definition clock_ok (call : Q * Q) : Prop := 0 < fst call /\ 0 <= snd call.

(** Timestamps in the order they were recorded. *)
Fixpoint ascending (times : list Q) : Prop :=
  match times with
  | [] => True
  | ts :: rest => Forall (Qle ts) rest /\ ascending rest
  end.

(** State of one window right after a recording at time [last]. *)
Definition window_ok (window : Q) (limit : nat) (times : list Q) (last : Q) : Prop :=
  ascending times /\ Forall (fun ts => ts <= last) times /\
  (younger window last times <= limit)%nat.

Definition limiter_ok (n m : nat) (self : t) (last : Q) : Prop :=
  requests_per_second self = n /\ requests_per_2min self = m /\
  window_ok 1 n (request_times_short self) last /\
  window_ok 120 m (request_times_long self) last.

(** 80 requests one second apart, then 20 requests within a fifth of a
    second. *)
Definition burst : list (Q * Q) :=
  repeat (1, 0) 80 ++ (2001 # 100, 0) :: repeat (1 # 100, 0) 19.

End RateLimit.

(** ** Exceptions and results *)

Inductive exn :=
| Exception (msg : string)     (* any subclass of [Exception] *)
| KeyboardInterrupt.

(** Outcome of a call: a value, a raised exception, or [OutOfFuel] when a
    [while] loop was cut off by the step bound of the model. *)
Inductive res (A : Type) :=
| Ok (a : A)
| Raise (e : exn)
| OutOfFuel.
Arguments Ok {A} a.
Arguments Raise {A} e.
Arguments OutOfFuel {A}.

(** ** api_client.py: RiotAPIClient._make_request *)

Module Request.

(** The [Retry-After] header of a response:
    [int(response.headers.get("Retry-After", 60))]. *)
Inductive retry_after_header :=
| NoHeader                   (* the default 60 is used *)
| IntHeader (seconds : Z)    (* [int] succeeds *)
| BadHeader.                 (* [int] raises [ValueError] *)

(** What [requests.get] does on one call.  [json = None] is a body on which
    [response.json()] raises. *)
Inductive http_outcome (J : Type) :=
| Response (status_code : Z) (retry_after : retry_after_header) (json : option J)
| RequestError (msg : string).
Arguments Response {J} status_code retry_after json.
Arguments RequestError {J} msg.

Inductive event :=
| Get (n : nat)           (* the n-th call of [requests.get] *)
| Sleep (seconds : Z).    (* [time.sleep] *)

Definition max_retries : Z := 3.

(** State of the loop when it is left. *)
Record outcome (J : Type) := {
  result : res (option J);   (* [Ok None] is the [None] of an allowed 404 *)
  retry_count : Z;           (* value of [retry_count] on exit *)
  trace : list event
}.
Arguments result {J} o.
Arguments retry_count {J} o.
Arguments trace {J} o.

Section MakeRequest.
Context {J : Type}.
(** The server: the outcome of the n-th [requests.get] of this call. *)
Variable server : nat -> http_outcome J.
Variable allow_404 : bool.

(** The branch of status 429:
    [retry_after = int(response.headers.get("Retry-After", 60));
     time.sleep(retry_after)]. *)
Definition rate_limited (retry_after : retry_after_header) : list event :=
  match retry_after with
  | NoHeader => [Sleep 60]
  | IntHeader s =>
      if (s <? 0)%Z then []     (* [sleep] raised: caught by [except] *)
      else [Sleep s]
  | BadHeader => []             (* [int] raised: caught by [except] *)
  end.

(** The tail of an iteration that did not return:
    [retry_count += 1; time.sleep(2 ** retry_count)]. *)
Definition backoff (retry_count : Z) : Z * list event :=
  let retry_count := (retry_count + 1)%Z in
  (retry_count, [Sleep (2 ^ retry_count)]).

(** The [while retry_count < max_retries] loop; [n] counts the calls of
    [requests.get] made so far, [fuel] bounds the iterations. *)
Fixpoint attempts (fuel : nat) (retry_count : Z) (n : nat) (tr : list event)
  : outcome J :=
  if (retry_count <? max_retries)%Z then
    match fuel with
    | O => {| result := OutOfFuel; retry_count := retry_count; trace := tr |}
    | S fuel =>
        let tr := tr ++ [Get n] in
        (* the body of [try]; [None] stands for falling out of it *)
        let '(returned, slept) :=
          match server n with
          | Response status_code retry_after json =>
              if (status_code =? 200)%Z then
                match json with
                | Some j => (Some (Some j), [])
                | None => (None, [])            (* [json()] raised: except *)
                end
              else if (status_code =? 404)%Z && allow_404 then (Some None, [])
              else if (status_code =? 429)%Z then (None, rate_limited retry_after)
              else (None, [])
          | RequestError _ => (None, [])
          end in
        match returned with
        | Some r => {| result := Ok r; retry_count := retry_count; trace := tr |}
        | None =>
            let '(retry_count, slept') := backoff retry_count in
            attempts fuel retry_count (S n) (tr ++ slept ++ slept')
        end
    end
  else {| result := Raise (Exception "Failed to get response after 3 retries");
          retry_count := retry_count; trace := tr |}.

(** [_make_request], after [self.rate_limit.wait_if_needed()]. *)
Definition _make_request : outcome J :=
  attempts (Z.to_nat max_retries) 0 0 [].

End MakeRequest.

(** One 429 asking for 2 seconds, then success. *)
Definition once_429 (n : nat) : http_outcome unit :=
  match n with
  | O => Response 429 (IntHeader 2) None
  | _ => Response 200 NoHeader (Some tt)
  end.

(** Three 429 responses, then success. *)
Definition thrice_429 (n : nat) : http_outcome unit :=
  if (n <? 3)%nat then Response 429 (IntHeader 2) None
  else Response 200 NoHeader (Some tt).

End Request.

(** ** Rows of the CSV files *)

(** A row of [SwiftplayPlayerMatchData.csv] / [RankedPlayerMatchData.csv];
    the natural key is ([matchId], [puuid]). *)
Record player_match := {
  matchId : string;
  puuid : string;
  teamId : Z;
  summonerLevel : Z;
  role : string;
  teamPosition : string;
  kills : Z;
  deaths : Z;
  assists : Z;
  championId : Z;
  win : bool;
  teamEarlySurrendered : bool;
  totalTimeSpentDead : Z;
  timePlayed : Z;
  longestTimeSpentLiving : Z;
  tier : string;
  rank : string;
  championLevel : Z;
  championPoints : Z
}.

(** A row of [SwiftplayMatches.csv] / [RankedMatches.csv]. *)
Record match_info := {
  mi_matchId : string;
  mi_gameDuration : Z;
  mi_endOfGameResult : string;
  mi_gameEndedInSurrender : bool;
  mi_gameEndedInEarlySurrender : bool
}.

(** A row of [Players.csv].  The ranked columns are [None] for Python's
    [None]. *)
Record player_data := {
  pd_puuid : string;
  pd_summonerLevel : Z;
  pd_tier : string;
  pd_rank : string;
  swiftplay_kills : Z;
  swiftplay_deaths : Z;
  swiftplay_assists : Z;
  swiftplay_kd : Q;
  swiftplay_ad : Q;
  swiftplay_kda : Q;
  swiftplay_kad : Q;
  swiftplay_win_loss_ratio : Q;
  ranked_kills : option Z;
  ranked_deaths : option Z;
  ranked_assists : option Z;
  ranked_kd : option Q;
  ranked_ad : option Q;
  ranked_kda : option Q;
  ranked_kad : option Q;
  ranked_win_loss_ratio : option Q
}.

(** ** data_manager.py: class DataManager *)

Module DataManager.

(** The files named by the attributes of the object, with their contents,
    and the in-memory cache. *)
Record t := mk {
  swiftplay_player_match_file : option (list player_match);
  ranked_player_match_file : option (list player_match);
  swiftplay_matches_file : option (list match_info);
  ranked_matches_file : option (list match_info);
  players_file : option (list player_data);
  queue_state_file : option (list string);
  match_id_cache : gset string
}.

(** [file = self.swiftplay_..._file if queue_type == "swiftplay"
            else self.ranked_..._file] *)
Definition is_swiftplay (queue_type : string) : bool :=
  String.eqb queue_type "swiftplay".

Definition player_match_file (queue_type : string) (self : t)
  : option (list player_match) :=
  if is_swiftplay queue_type then swiftplay_player_match_file self
  else ranked_player_match_file self.

Definition matches_file (queue_type : string) (self : t)
  : option (list match_info) :=
  if is_swiftplay queue_type then swiftplay_matches_file self
  else ranked_matches_file self.

Definition set_player_match_file (queue_type : string)
    (rows : list player_match) (self : t) : t :=
  if is_swiftplay queue_type
  then mk (Some rows) (ranked_player_match_file self) (swiftplay_matches_file self)
          (ranked_matches_file self) (players_file self) (queue_state_file self)
          (match_id_cache self)
  else mk (swiftplay_player_match_file self) (Some rows) (swiftplay_matches_file self)
          (ranked_matches_file self) (players_file self) (queue_state_file self)
          (match_id_cache self).

Definition set_matches_file (queue_type : string)
    (rows : list match_info) (self : t) : t :=
  if is_swiftplay queue_type
  then mk (swiftplay_player_match_file self) (ranked_player_match_file self)
          (Some rows) (ranked_matches_file self) (players_file self)
          (queue_state_file self) (match_id_cache self)
  else mk (swiftplay_player_match_file self) (ranked_player_match_file self)
          (swiftplay_matches_file self) (Some rows) (players_file self)
          (queue_state_file self) (match_id_cache self).

Definition set_players_file (rows : list player_data) (self : t) : t :=
  mk (swiftplay_player_match_file self) (ranked_player_match_file self)
     (swiftplay_matches_file self) (ranked_matches_file self) (Some rows)
     (queue_state_file self) (match_id_cache self).

Definition set_queue_state_file (queue : list string) (self : t) : t :=
  mk (swiftplay_player_match_file self) (ranked_player_match_file self)
     (swiftplay_matches_file self) (ranked_matches_file self) (players_file self)
     (Some queue) (match_id_cache self).

Definition set_match_id_cache (cache : gset string) (self : t) : t :=
  mk (swiftplay_player_match_file self) (ranked_player_match_file self)
     (swiftplay_matches_file self) (ranked_matches_file self) (players_file self)
     (queue_state_file self) cache.

(** [pd.DataFrame(columns=columns).to_csv(file)] when the file is missing. *)
Definition create_if_missing {A} (file : option (list A)) : option (list A) :=
  match file with
  | Some rows => Some rows
  | None => Some []
  end.

(** The match ids of a matches file, [df["matchId"].values]; a missing file
    is skipped by the [Path(file).exists()] test. *)
Definition match_ids_of (file : option (list match_info)) : list string :=
  match file with
  | Some rows => mi_matchId <$> rows
  | None => []
  end.

(** [__init__] with [_initialize_files], run on the files found on disk;
    the cache of the argument is ignored ([self.match_id_cache = set()]). *)
Definition _initialize_files (disk : t) : t :=
  let swiftplay_matches := create_if_missing (swiftplay_matches_file disk) in
  let ranked_matches := create_if_missing (ranked_matches_file disk) in
  mk (create_if_missing (swiftplay_player_match_file disk))
     (create_if_missing (ranked_player_match_file disk))
     swiftplay_matches ranked_matches
     (create_if_missing (players_file disk))
     (queue_state_file disk)
     (list_to_set (match_ids_of ranked_matches)
        ∪ (list_to_set (match_ids_of swiftplay_matches) ∪ ∅)).

(** [player_exists] *)
Definition player_exists (puuid : string) (self : t) : bool :=
  match players_file self with
  | None => false
  | Some df => bool_decide (puuid ∈ pd_puuid <$> df)
  end.

(** [match_exists]; the cache may grow. *)
Definition match_exists (match_id queue_type : string) (self : t) : bool * t :=
  if bool_decide (match_id ∈ match_id_cache self) then (true, self)
  else
    match matches_file queue_type self with
    | None => (false, self)
    | Some df =>
        let exists_ := bool_decide (match_id ∈ mi_matchId <$> df) in
        if exists_
        then (true, set_match_id_cache ({[match_id]} ∪ match_id_cache self) self)
        else (false, self)
    end.

(** [df.to_csv(file, mode='a', header=not Path(file).exists())] *)
Definition append {A} (file : option (list A)) (rows : list A) : list A :=
  match file with
  | Some old => old ++ rows
  | None => rows
  end.

(** [save_player] *)
Definition save_player (player_data : player_data) (self : t) : t :=
  set_players_file (append (players_file self) [player_data]) self.

(** [save_match] *)
Definition save_match (match_data : match_info) (queue_type : string) (self : t) : t :=
  set_matches_file queue_type (append (matches_file queue_type self) [match_data]) self.

(** [len(existing_df[(existing_df["matchId"] == match["matchId"]) &
                     (existing_df["puuid"] == match["puuid"])]) > 0] *)
Definition same_key (a b : player_match) : bool :=
  String.eqb (matchId a) (matchId b) && String.eqb (puuid a) (puuid b).

Definition exists_in (existing_df : list player_match) (match_ : player_match) : bool :=
  (0 <? length (List.filter (fun row => same_key row match_) existing_df))%nat.

(** [save_player_matches]; [pd.read_csv] raises on a missing file.  Every
    row of the argument is compared with [existing_df], the rows read before
    the loop. *)
Definition save_player_matches (player_matches : list player_match)
    (queue_type : string) (self : t) : res t :=
  match player_match_file queue_type self with
  | None => Raise (Exception "FileNotFoundError")
  | Some existing_df =>
      let new_matches :=
        List.filter (fun match_ => negb (exists_in existing_df match_)) player_matches in
      match new_matches with
      | [] => Ok self
      | _ => Ok (set_player_match_file queue_type (existing_df ++ new_matches) self)
      end
  end.

(** [save_queue_state] *)
Definition save_queue_state (queue : list string) (self : t) : t :=
  set_queue_state_file queue self.

(** [load_queue_state] *)
Definition load_queue_state (self : t) : list string :=
  match queue_state_file self with
  | None => []
  | Some queue => queue
  end.

(** [players_file_exists] *)
Definition players_file_exists (self : t) : bool :=
  match players_file self with Some _ => true | None => false end.

(** [get_all_player_puuids] *)
Definition get_all_player_puuids (self : t) : gset string :=
  match players_file self with
  | None => ∅
  | Some df => list_to_set (pd_puuid <$> df)
  end.

(** [get_player_match_data]: the first row with the key, if any. *)
Definition get_player_match_data (match_id puuid_ queue_type : string) (self : t)
  : option player_match :=
  match player_match_file queue_type self with
  | None => None
  | Some df =>
      head (List.filter (fun row => String.eqb (matchId row) match_id
                                    && String.eqb (puuid row) puuid_) df)
  end.



(** The rows kept by the filter of [save_player_matches]. *)
Definition new_matches (existing player_matches : list player_match)
  : list player_match :=
  List.filter (fun match_ => negb (exists_in existing match_)) player_matches.

End DataManager.

(** ** Payloads of the remote API *)

(** An element of [match_details["info"]["participants"]]. *)
Record participant := {
  p_puuid : string;
  p_teamId : Z;
  p_summonerLevel : Z;
  p_role : string;
  p_teamPosition : string;
  p_kills : Z;
  p_deaths : Z;
  p_assists : Z;
  p_championId : Z;
  p_win : bool;
  p_teamEarlySurrendered : bool;
  p_totalTimeSpentDead : Z;
  p_timePlayed : Z;
  p_longestTimeSpentLiving : Z;
  p_gameEndedInSurrender : bool;
  p_gameEndedInEarlySurrender : bool
}.

Record match_details := {
  metadata_matchId : string;
  metadata_participants : list string;
  info_gameDuration : Z;
  info_endOfGameResult : option string;    (* may not always be present *)
  info_participants : list participant
}.

(** An element of the rank payload. *)
Record rank_entry := {
  queueType : string;
  re_tier : string;
  re_rank : string
}.

(** The mastery payload; both keys are read with [.get(key, 0)]. *)
Record mastery := {
  m_championLevel : option Z;
  m_championPoints : option Z
}.

Record league_entry := { le_puuid : string }.

(** What [_make_request] returns or raises for each endpoint, and the draws
    of [random.randint(1, 17)]. *)
Record remote := {
  league_entries : string -> string -> Z -> res (list league_entry);
  match_ids : string -> string -> res (list string);
  match_details_of : string -> res match_details;
  player_rank : string -> res (list rank_entry);
  champion_mastery : string -> Z -> res (option mastery);
  randint : nat -> Z
}.

(** ** main.py: LeagueBFS._aggregate_player_data *)

Module Aggregate.
Local Open Scope Q_scope.

Record stats := {
  s_kills : Z;
  s_deaths : Z;
  s_assists : Z;
  s_wins : Z;
  total_games : Z
}.

(** The four [+=] of one round of [for match in data]. *)
Definition add_match (st : stats) (match_ : player_match) : stats :=
  {| s_kills := s_kills st + kills match_;
     s_deaths := s_deaths st + deaths match_;
     s_assists := s_assists st + assists match_;
     s_wins := s_wins st + (if win match_ then 1 else 0);
     total_games := total_games st |}.

Definition sum_stats (data : list player_match) : stats :=
  fold_left add_match data
    {| s_kills := 0; s_deaths := 0; s_assists := 0; s_wins := 0;
       total_games := Z.of_nat (length data) |}.

(** [tier], [rank] and [summoner_level] after the swiftplay loop:
    overwritten as long as [tier == "UNRANKED"]. *)
Definition rank_step (acc : string * string * Z) (match_ : player_match)
  : string * string * Z :=
  let '(tier_, rank_, summoner_level) := acc in
  if String.eqb tier_ "UNRANKED"
  then (tier match_, rank match_, summonerLevel match_)
  else acc.

Definition rank_info (data : list player_match) : string * string * Z :=
  fold_left rank_step data ("UNRANKED", "UNRANKED", 0%Z).

(** Python's [/] on integers. *)
Definition div (a b : Z) : Q := inject_Z a / inject_Z b.

Definition kd (st : stats) : Q :=
  let deaths_for_ratio := Z.max 1 (s_deaths st) in
  div (s_kills st) deaths_for_ratio.

Definition ad (st : stats) : Q :=
  let deaths_for_ratio := Z.max 1 (s_deaths st) in
  div (s_assists st) deaths_for_ratio.

Definition kda (st : stats) : Q :=
  let deaths_for_ratio := Z.max 1 (s_deaths st) in
  (inject_Z (s_kills st) + div (s_assists st) 2) / inject_Z deaths_for_ratio.

Definition kad (st : stats) : Q :=
  let deaths_for_ratio := Z.max 1 (s_deaths st) in
  div (s_kills st + s_assists st) deaths_for_ratio.

Definition win_loss_ratio (st : stats) : Q :=
  div (s_wins st) (Z.max 1 (total_games st - s_wins st)).

Definition _aggregate_player_data (puuid_ : string)
    (swiftplay_data ranked_data : list player_match) : player_data :=
  let swiftplay_stats := sum_stats swiftplay_data in
  let '(tier_, rank_, summoner_level) := rank_info swiftplay_data in
  let ranked_stats :=
    match ranked_data with
    | [] => None
    | _ => Some (sum_stats ranked_data)
    end in
  {| pd_puuid := puuid_;
     pd_summonerLevel := summoner_level;
     pd_tier := tier_;
     pd_rank := rank_;
     swiftplay_kills := s_kills swiftplay_stats;
     swiftplay_deaths := s_deaths swiftplay_stats;
     swiftplay_assists := s_assists swiftplay_stats;
     swiftplay_kd := kd swiftplay_stats;
     swiftplay_ad := ad swiftplay_stats;
     swiftplay_kda := kda swiftplay_stats;
     swiftplay_kad := kad swiftplay_stats;
     swiftplay_win_loss_ratio := win_loss_ratio swiftplay_stats;
     ranked_kills := s_kills <$> ranked_stats;
     ranked_deaths := s_deaths <$> ranked_stats;
     ranked_assists := s_assists <$> ranked_stats;
     ranked_kd := kd <$> ranked_stats;
     ranked_ad := ad <$> ranked_stats;
     ranked_kda := kda <$> ranked_stats;
     ranked_kad := kad <$> ranked_stats;
     ranked_win_loss_ratio := win_loss_ratio <$> ranked_stats |}.

(** Sum of a column over the matches of a category. *)
Definition total (column : player_match -> Z) (data : list player_match) : Z :=
  fold_right (fun match_ acc => (column match_ + acc)%Z) 0%Z data.

Definition wins (data : list player_match) : Z :=
  total (fun match_ => if win match_ then 1%Z else 0%Z) data.

End Aggregate.

(** ** main.py: class LeagueBFS *)

Module LeagueBFS.

Inductive level := INFO | ERROR.

(** What a run does to the outside world and to its queue, in order. *)
Inductive event :=
| Log (lvl : level) (msg : string)
| Popleft (current_puuid : string) (rest : list string)
| Appendleft (puuid_ : string)
| SaveQueueState (queue : list string)
| GetLeagueEntries (tier_ division : string) (page : Z)
| GetMatchIds (puuid_ queue_type : string)
| GetMatchDetails (match_id : string)
| GetPlayerRank (puuid_ : string)
| GetChampionMastery (puuid_ : string) (champion_id : Z)
| SavePlayerMatches (rows : list player_match) (queue_type : string)
| SaveMatch (row : match_info) (queue_type : string)
| SavePlayer (row : player_data).

(** The two caches of [RiotAPIClient]. *)
Record RiotAPIClient := {
  rank_cache : gmap string (list rank_entry);
  champion_mastery_cache : gmap (string * Z) (option mastery)
}.

Record t := mk {
  api_client : RiotAPIClient;
  data_manager : DataManager.t;
  visited_puuids : gset string;
  queue : list string
}.

(** [__init__], on the files found on disk. *)
Definition init (disk : DataManager.t) : t :=
  {| api_client := {| rank_cache := ∅; champion_mastery_cache := ∅ |};
     data_manager := DataManager._initialize_files disk;
     visited_puuids := ∅;
     queue := [] |}.

Definition set_api_client (c : RiotAPIClient) (self : t) : t :=
  mk c (data_manager self) (visited_puuids self) (queue self).
Definition set_data_manager (d : DataManager.t) (self : t) : t :=
  mk (api_client self) d (visited_puuids self) (queue self).
Definition set_visited_puuids (v : gset string) (self : t) : t :=
  mk (api_client self) (data_manager self) v (queue self).
Definition set_queue (q : list string) (self : t) : t :=
  mk (api_client self) (data_manager self) (visited_puuids self) q.

(** [str(e)] *)
Definition str (e : exn) : string :=
  match e with
  | Exception msg => msg
  | KeyboardInterrupt => ""
  end.

(** Methods run on the object, may raise, and leave events. *)
Definition M (A : Type) : Type := t -> res A * t * list event.

Definition ret {A} (a : A) : M A := fun self => (Ok a, self, []).

Definition bind {A B} (m : M A) (k : A -> M B) : M B := fun self =>
  match m self with
  | (Ok a, self1, ev1) =>
      let '(r, self2, ev2) := k a self1 in (r, self2, ev1 ++ ev2)
  | (Raise e, self1, ev1) => (Raise e, self1, ev1)
  | (OutOfFuel, self1, ev1) => (OutOfFuel, self1, ev1)
  end.

Notation "'let*' x ':=' m 'in' k" := (bind m (fun x => k))
  (at level 10, x name, m at level 100, k at level 200).
Notation "m ;; k" := (bind m (fun _ => k))
  (at level 100, k at level 200, right associativity).

Definition raise {A} (e : exn) : M A := fun self => (Raise e, self, []).
Definition emit (e : event) : M unit := fun self => (Ok tt, self, [e]).
Definition get : M t := fun self => (Ok self, self, []).
Definition modify (f : t -> t) : M unit := fun self => (Ok tt, f self, []).

(** An operation on the outside world (a call of [_make_request], a file
    operation): one event, and its value or the exception it raises. *)
Definition effect {A} (e : event) (outcome : res A) : M A :=
  fun self => (outcome, self, [e]).

(** [try: m  except Exception as e: h e] *)
Definition try_except {A} (m : M A) (h : exn -> M A) : M A := fun self =>
  match m self with
  | (Raise (Exception msg), self1, ev1) =>
      let '(r, self2, ev2) := h (Exception msg) self1 in (r, self2, ev1 ++ ev2)
  | other => other
  end.

Definition save_queue_state : M unit :=
  let* self := get in
  modify (set_data_manager
            (DataManager.save_queue_state (queue self) (data_manager self))) ;;
  emit (SaveQueueState (queue self)).

Definition appendleft (puuid_ : string) : M unit :=
  modify (fun self => set_queue (puuid_ :: queue self) self) ;;
  emit (Appendleft puuid_).

(** Locals of [bfs] that outlive an iteration of its loop. *)
Record frame := {
  iterations : nat;
  add_to_queue : bool;
  current_puuid : option string     (* [None] while still unbound *)
}.

Section WithRemote.
Variable api : remote.

(** *** api_client.py: the five endpoints *)

Definition get_league_entries (tier_ division : string) (page : Z)
  : M (list league_entry) :=
  effect (GetLeagueEntries tier_ division page)
          (league_entries api tier_ division page).

Definition get_match_ids (puuid_ queue_type : string) : M (list string) :=
  effect (GetMatchIds puuid_ queue_type) (match_ids api puuid_ queue_type).

Definition get_match_details (match_id : string) : M match_details :=
  effect (GetMatchDetails match_id) (match_details_of api match_id).

Definition get_player_rank (puuid_ : string) : M (list rank_entry) :=
  let* self := get in
  match rank_cache (api_client self) !! puuid_ with
  | Some rank_info => ret rank_info
  | None =>
      let* rank_info := effect (GetPlayerRank puuid_) (player_rank api puuid_) in
      modify (fun self =>
        set_api_client
          {| rank_cache := <[puuid_ := rank_info]> (rank_cache (api_client self));
             champion_mastery_cache := champion_mastery_cache (api_client self) |}
          self) ;;
      ret rank_info
  end.

Definition get_champion_mastery (puuid_ : string) (champion_id : Z)
  : M (option mastery) :=
  let cache_key := (puuid_, champion_id) in
  let* self := get in
  match champion_mastery_cache (api_client self) !! cache_key with
  | Some m => ret m
  | None =>
      let* m := effect (GetChampionMastery puuid_ champion_id)
                   (champion_mastery api puuid_ champion_id) in
      modify (fun self =>
        set_api_client
          {| rank_cache := rank_cache (api_client self);
             champion_mastery_cache :=
               <[cache_key := m]> (champion_mastery_cache (api_client self)) |}
          self) ;;
      ret m
  end.

(** *** _add_teammates_to_queue *)

Fixpoint add_teammates (participants : list string) (self : t) : t :=
  match participants with
  | [] => self
  | participant_puuid :: rest =>
      if bool_decide (participant_puuid ∈ visited_puuids self)
      then add_teammates rest self
      else add_teammates rest
             (set_visited_puuids ({[participant_puuid]} ∪ visited_puuids self)
                (set_queue (queue self ++ [participant_puuid]) self))
  end.

Definition _add_teammates_to_queue (match_details_ : match_details) : M unit :=
  modify (add_teammates (metadata_participants match_details_)).

(** *** _extract_match_info *)

Definition _extract_match_info (match_details_ : match_details) : M match_info :=
  match info_participants match_details_ with
  | [] => raise (Exception "IndexError")          (* [participants[0]] *)
  | surrender_info :: _ =>
      ret {| mi_matchId := metadata_matchId match_details_;
             mi_gameDuration := info_gameDuration match_details_;
             mi_endOfGameResult := default "" (info_endOfGameResult match_details_);
             mi_gameEndedInSurrender := p_gameEndedInSurrender surrender_info;
             mi_gameEndedInEarlySurrender := p_gameEndedInEarlySurrender surrender_info |}
  end.

(** *** _extract_player_matches *)

Definition solo_rank_of (rank_info : list rank_entry) : string * string :=
  match rank_info with
  | [] => ("UNRANKED", "UNRANKED")                (* [if rank_info:] fails *)
  | _ =>
      match List.find (fun entry => String.eqb (queueType entry) "RANKED_SOLO_5x5")
                      rank_info with
      | Some solo_rank => (re_tier solo_rank, re_rank solo_rank)
      | None => ("UNRANKED", "UNRANKED")
      end
  end.

Fixpoint extract_loop (participants : list participant) (match_id : string)
    (player_matches : list player_match) : M (list player_match) :=
  match participants with
  | [] => ret player_matches
  | participant :: rest =>
      let puuid_ := p_puuid participant in
      let* rank_info := get_player_rank puuid_ in
      let '(tier_, rank_) := solo_rank_of rank_info in
      let* champion_mastery_ := get_champion_mastery puuid_ (p_championId participant) in
      let champion_level :=
        match champion_mastery_ with
        | Some m => default 0%Z (m_championLevel m)
        | None => 0%Z
        end in
      let champion_points :=
        match champion_mastery_ with
        | Some m => default 0%Z (m_championPoints m)
        | None => 0%Z
        end in
      let player_match_ :=
        {| matchId := match_id;
           puuid := puuid_;
           teamId := p_teamId participant;
           summonerLevel := p_summonerLevel participant;
           role := p_role participant;
           teamPosition := p_teamPosition participant;
           kills := p_kills participant;
           deaths := p_deaths participant;
           assists := p_assists participant;
           championId := p_championId participant;
           win := p_win participant;
           teamEarlySurrendered := p_teamEarlySurrendered participant;
           totalTimeSpentDead := p_totalTimeSpentDead participant;
           timePlayed := p_timePlayed participant;
           longestTimeSpentLiving := p_longestTimeSpentLiving participant;
           tier := tier_;
           rank := rank_;
           championLevel := champion_level;
           championPoints := champion_points |} in
      extract_loop rest match_id (player_matches ++ [player_match_])
  end.

Definition _extract_player_matches (match_details_ : match_details)
    (match_id : string) : M (list player_match) :=
  extract_loop (info_participants match_details_) match_id [].

(** *** _process_matches *)

(** The body of [try] for one match id; the result is the new value of
    [player_match_data]. *)
Definition process_match (puuid_ match_id queue_type : string)
    (add_to_queue_ : bool) (player_match_data : list player_match)
  : M (list player_match) :=
  let* self := get in
  let '(known, dm) :=
    DataManager.match_exists match_id queue_type (data_manager self) in
  modify (set_data_manager dm) ;;
  if known then
    (* Get player match data from existing records *)
    match DataManager.get_player_match_data match_id puuid_ queue_type dm with
    | Some existing_match_data => ret (player_match_data ++ [existing_match_data])
    | None => ret player_match_data
    end
  else
    let* match_details_ := get_match_details match_id in
    (* Process player match data first *)
    let* player_matches := _extract_player_matches match_details_ match_id in
    let* self := get in
    let* dm := effect (SavePlayerMatches player_matches queue_type)
                 (DataManager.save_player_matches player_matches queue_type
                    (data_manager self)) in
    modify (set_data_manager dm) ;;
    (* Only save match info if player data was saved successfully *)
    let* match_info_ := _extract_match_info match_details_ in
    emit (SaveMatch match_info_ queue_type) ;;
    modify (fun self =>
      set_data_manager
        (DataManager.save_match match_info_ queue_type (data_manager self)) self) ;;
    (* Find and append this player's match data *)
    match List.find (fun pm => String.eqb (puuid pm) puuid_) player_matches with
    | None => raise (Exception "StopIteration")
    | Some player_match_ =>
        (* Add teammates to queue if needed *)
        (if add_to_queue_ && String.eqb queue_type "swiftplay"
         then _add_teammates_to_queue match_details_
         else ret tt) ;;
        ret (player_match_data ++ [player_match_])
    end.

Fixpoint process_matches_loop (puuid_ : string) (match_ids_ : list string)
    (queue_type : string) (add_to_queue_ : bool)
    (player_match_data : list player_match) : M (list player_match) :=
  match match_ids_ with
  | [] => ret player_match_data
  | match_id :: rest =>
      let* player_match_data :=
        try_except
          (process_match puuid_ match_id queue_type add_to_queue_ player_match_data)
          (fun e =>
             emit (Log ERROR ("Error processing match " ++ match_id ++ ": " ++ str e)) ;;
             raise e) in
      process_matches_loop puuid_ rest queue_type add_to_queue_ player_match_data
  end.

Definition _process_matches (puuid_ : string) (match_ids_ : list string)
    (queue_type : string) (add_to_queue_ : bool) : M (list player_match) :=
  process_matches_loop puuid_ match_ids_ queue_type add_to_queue_ [].

(** *** _process_player *)

Definition _process_player (puuid_ : string) (add_to_queue_ : bool) : M unit :=
  let* self := get in
  if DataManager.player_exists puuid_ (data_manager self) then
    emit (Log INFO ("Player " ++ puuid_ ++ " already processed"))
  else
    (* Collect Swiftplay matches *)
    let* swiftplay_matches := get_match_ids puuid_ "swiftplay" in
    let* swiftplay_data :=
      _process_matches puuid_ swiftplay_matches "swiftplay" add_to_queue_ in
    (* Collect Ranked matches *)
    let* ranked_matches := get_match_ids puuid_ "ranked" in
    let* ranked_data := _process_matches puuid_ ranked_matches "ranked" false in
    (* Aggregate player data *)
    let player_data_ :=
      Aggregate._aggregate_player_data puuid_ swiftplay_data ranked_data in
    emit (SavePlayer player_data_) ;;
    modify (fun self =>
      set_data_manager (DataManager.save_player player_data_ (data_manager self)) self).

(** *** bfs *)

(** [except Exception as e:] around [_process_player]. *)
Definition requeue (current_puuid_ : string) (e : exn) : M unit :=
  emit (Log ERROR ("Error processing player " ++ current_puuid_ ++ ": " ++ str e)) ;;
  (* Put the failed PUUID back in queue *)
  appendleft current_puuid_ ;;
  save_queue_state ;;
  raise e.

(** The [while self.queue] loop, cut off after [fuel] iterations. *)
Fixpoint bfs_while (fuel : nat) (locals : frame) (self : t)
  : res unit * frame * t * list event :=
  match queue self with
  | [] => (Ok tt, locals, self, [])
  | current_puuid_ :: rest =>
      match fuel with
      | O => (OutOfFuel, locals, self, [])
      | S fuel =>
          let iterations_ := S (iterations locals) in
          let ev_log :=
            [Log INFO ("BFS Iteration " ++ pretty iterations_ ++ ", Queue size: "
                       ++ pretty (length (queue self)))] in
          let self := set_queue rest self in
          let ev_pop := [Popleft current_puuid_ rest] in
          (* Save queue state before processing each player *)
          let '(_, self, ev_save) := save_queue_state self in
          let add_to_queue_ :=
            if (1000 <? length (queue self))%nat then false else add_to_queue locals in
          let locals :=
            {| iterations := iterations_;
               add_to_queue := add_to_queue_;
               current_puuid := Some current_puuid_ |} in
          match try_except (_process_player current_puuid_ add_to_queue_)
                           (requeue current_puuid_) self with
          | (Ok _, self, ev_proc) =>
              let '(r, locals', self', ev_rest) := bfs_while fuel locals self in
              (r, locals', self', ev_log ++ ev_pop ++ ev_save ++ ev_proc ++ ev_rest)
          | (Raise e, self, ev_proc) =>
              (Raise e, locals, self, ev_log ++ ev_pop ++ ev_save ++ ev_proc)
          | (OutOfFuel, self, ev_proc) =>
              (OutOfFuel, locals, self, ev_log ++ ev_pop ++ ev_save ++ ev_proc)
          end
      end
  end.

(** [except KeyboardInterrupt:] around the loop. *)
Definition interrupted (locals : frame) : M unit :=
  emit (Log INFO "Received keyboard interrupt, saving state before exit...") ;;
  match current_puuid locals with
  | None => raise (Exception "UnboundLocalError")
  | Some current_puuid_ =>
      (* Put the current PUUID back in queue if we were interrupted *)
      (if String.eqb current_puuid_ "" then ret tt else appendleft current_puuid_) ;;
      save_queue_state ;;
      raise KeyboardInterrupt
  end.

(** [try: while ... except KeyboardInterrupt: ...], entered with the locals
    [locals]. *)
Definition bfs_try (fuel : nat) (locals : frame) : M unit := fun self =>
  match bfs_while fuel locals self with
  | (Raise KeyboardInterrupt, locals, self, ev) =>
      let '(r, self, ev') := interrupted locals self in (r, self, ev ++ ev')
  | (r, _, self, ev) => (r, self, ev)
  end.

Definition bfs (start_puuid : option string) (fuel : nat) : M unit :=
  match start_puuid with
  | Some p =>
      (* Only clear and initialize queue if starting new BFS *)
      modify (fun self =>
        set_visited_puuids ({[p]} ∪ visited_puuids self) (set_queue [p] self))
  | None => ret tt
  end ;;
  bfs_try fuel {| iterations := 0; add_to_queue := true; current_puuid := None |}.

(** *** _sample_from_division, start_from_division *)

(** [for entry in entries]; the result tells whether a candidate was found
    (and the crawl run), in which case [_sample_from_division] returns. *)
Fixpoint sample_entries (entries : list league_entry) (tier_ division : string)
    (fuel : nat) : M bool :=
  match entries with
  | [] => ret false
  | entry :: rest =>
      let puuid_ := le_puuid entry in
      let* self := get in
      if bool_decide (puuid_ ∈ visited_puuids self)
      then sample_entries rest tier_ division fuel
      else
        (* Check if player has both Swiftplay and Ranked games *)
        let* swiftplay_matches := get_match_ids puuid_ "swiftplay" in
        let* ranked_matches := get_match_ids puuid_ "ranked" in
        match swiftplay_matches, ranked_matches with
        | _ :: _, _ :: _ =>
            emit (Log INFO ("Found valid candidate in " ++ tier_ ++ " " ++ division
                            ++ ". Starting BFS...")) ;;
            bfs (Some puuid_) fuel ;;
            ret true
        | _, _ => sample_entries rest tier_ division fuel
        end
  end.

(** [while attempts < 5]; [budget] is [5 - attempts]. *)
Fixpoint sample_pages (budget attempts : nat) (tier_ division : string)
    (fuel : nat) : M unit :=
  match budget with
  | O => ret tt
  | S budget =>
      let page := randint api attempts in
      emit (Log INFO ("Trying page " ++ pretty page ++ " for " ++ tier_ ++ " "
                      ++ division)) ;;
      let* entries := get_league_entries tier_ division page in
      let* found := sample_entries entries tier_ division fuel in
      if found then ret tt
      else sample_pages budget (S attempts) tier_ division fuel
  end.

Definition _sample_from_division (tier_ division : string) (fuel : nat) : M unit :=
  sample_pages 5 0 tier_ division fuel.

Definition start_from_division (tier_ division : string) (fuel : nat) : M unit :=
  emit (Log INFO ("Sampling from " ++ tier_ ++ " " ++ division)) ;;
  _sample_from_division tier_ division fuel.

(** *** resume_from_queue *)

(** The statements before [self.bfs(None)]; [true] when there is a queue to
    resume. *)
Definition restore : M bool :=
  let* self := get in
  let saved_queue := DataManager.load_queue_state (data_manager self) in
  match saved_queue with
  | [] => emit (Log ERROR "No saved queue state found") ;; ret false
  | _ =>
      emit (Log INFO ("Resuming BFS with " ++ pretty (length saved_queue)
                      ++ " players in queue")) ;;
      modify (set_queue saved_queue) ;;
      (* Load visited PUUIDs from Players.csv to avoid reprocessing *)
      (if DataManager.players_file_exists (data_manager self)
       then modify (set_visited_puuids
                      (DataManager.get_all_player_puuids (data_manager self)))
       else ret tt) ;;
      ret true
  end.

Definition resume_from_queue (fuel : nat) : M unit :=
  let* resumed := restore in
  if resumed
  then bfs None fuel     (* Start BFS from current queue *)
  else ret tt.

End WithRemote.
(** *** Vocabulary of the properties *)

(** Events of the processing of one player: requests and record writes,
    no operation on the queue or its checkpoint. *)
Definition processing (e : event) : Prop :=
  match e with
  | Popleft _ _ | Appendleft _ | SaveQueueState _ | GetLeagueEntries _ _ _ => False
  | _ => True
  end.



(** The queue and the visited set are left as they are. *)
Definition keeps (self self' : t) : Prop :=
  queue self' = queue self /\ visited_puuids self' = visited_puuids self.

(** Ids were appended to the queue: each one new to the visited set, and
    marked visited. *)
Definition grows (self self' : t) : Prop :=
  exists added,
    queue self' = queue self ++ added /\
    visited_puuids self' = visited_puuids self ∪ list_to_set added /\
    NoDup added /\
    Forall (fun p => p ∉ visited_puuids self) added.

(** A method relates the object before and after by [R] and leaves only
    events of processing. *)
Definition sat (R : t -> t -> Prop) {A} (m : M A) : Prop :=
  forall self r self' ev, m self = (r, self', ev) -> R self self' /\ Forall processing ev.

(** The object after [popleft] and [save_queue_state]. *)
Definition checkpoint (rest : list string) (self : t) : t :=
  set_data_manager (DataManager.save_queue_state rest (data_manager self))
                   (set_queue rest self).

(** The value of [add_to_queue] handed to [_process_player]. *)
Definition gate (locals : frame) (rest : list string) : bool :=
  if (1000 <? length rest)%nat then false else add_to_queue locals.

(** The object after the handler of [except Exception]. *)
Definition requeued (current_puuid_ : string) (self : t) : t :=
  set_data_manager
    (DataManager.save_queue_state (current_puuid_ :: queue self) (data_manager self))
    (set_queue (current_puuid_ :: queue self) self).

(** The locals after the first statements of a round. *)
Definition next_locals (locals : frame) (current_puuid_ : string) (rest : list string)
  : frame :=
  {| iterations := S (iterations locals);
     add_to_queue := gate locals rest;
     current_puuid := Some current_puuid_ |}.

(** The events of the first statements of a round. *)
Definition step_prefix (locals : frame) (current_puuid_ : string) (rest : list string)
  : list event :=
  [Log INFO ("BFS Iteration " ++ pretty (S (iterations locals)) ++ ", Queue size: "
             ++ pretty (length (current_puuid_ :: rest)));
   Popleft current_puuid_ rest; SaveQueueState rest].

(** The queued ids and the id in flight are in the visited set. *)
Definition tracked (locals : frame) (self : t) : Prop :=
  (forall p, p ∈ queue self -> p ∈ visited_puuids self) /\
  (forall c, current_puuid locals = Some c -> c ∈ visited_puuids self).

End LeagueBFS.

(** ** main.py: main *)

Module Main.
Import LeagueBFS.

(** The command line: which options are present, with their values. *)
Record argv := {
  opt_resume : bool;
  opt_tier : option string;
  opt_division : option string
}.

Definition tier_choices : list string :=
  ["DIAMOND"; "EMERALD"; "PLATINUM"; "GOLD"; "SILVER"; "BRONZE"; "IRON"].
Definition division_choices : list string := ["I"; "II"; "III"; "IV"].

Definition in_choices (choices : list string) (o : option string) : bool :=
  match o with
  | None => true
  | Some v => bool_decide (v ∈ choices)
  end.

(** [parser.parse_args()]: [false] when argparse reports an error, which
    ends the process with status 2.  [--resume] and [--tier] form a
    required, mutually exclusive group. *)
Definition parse_args (a : argv) : bool :=
  in_choices tier_choices (opt_tier a)
  && in_choices division_choices (opt_division a)
  && match opt_resume a, opt_tier a with
     | true, None => true
     | false, Some _ => true
     | _, _ => false
     end.

Record exit := {
  status : option Z;        (* exit status; [None] when the model ran out of fuel *)
  final : LeagueBFS.t;
  events : list event
}.

(** The body of [try] in [main]; [None] is [parser.error], which leaves the
    process with status 2 ([SystemExit] is not caught by the handlers). *)
Definition crawl (api : remote) (a : argv) (fuel : nat) : option (M unit) :=
  if opt_resume a then Some (resume_from_queue api fuel)
  else
    match opt_division a, opt_tier a with
    | Some division, Some tier_ => Some (start_from_division api tier_ division fuel)
    | _, _ => None
    end.

Definition main (api : remote) (a : argv) (disk : DataManager.t) (fuel : nat) : exit :=
  let bfs_ := LeagueBFS.init disk in
  if negb (parse_args a) then {| status := Some 2%Z; final := bfs_; events := [] |}
  else
    match crawl api a fuel with
    | None => {| status := Some 2%Z; final := bfs_; events := [] |}
    | Some m =>
        match m bfs_ with
        | (Ok _, self, ev) => {| status := Some 0%Z; final := self; events := ev |}
        | (Raise KeyboardInterrupt, self, ev) =>
            {| status := Some 0%Z; final := self;
               events := ev ++ [Log INFO "Program terminated by user"] |}
        | (Raise (Exception msg), self, ev) =>
            {| status := Some 0%Z; final := self;
               events := ev ++ [Log ERROR ("Program terminated with error: " ++ msg)] |}
        | (OutOfFuel, self, ev) => {| status := None; final := self; events := ev |}
        end
    end.

End Main.

(** ** Concrete stores, remotes and runs used as examples *)

Module Worlds.
Import LeagueBFS.

(** A directory without any file. *)
Definition no_files : DataManager.t :=
  DataManager.mk None None None None None None ∅.

(** A participant row with the key ([match_id], [puuid_]). *)
Definition row (match_id puuid_ : string) (kills_ deaths_ assists_ : Z) (win_ : bool)
  : player_match :=
  {| matchId := match_id; puuid := puuid_; teamId := 100; summonerLevel := 30;
     role := "SOLO"; teamPosition := "TOP"; kills := kills_; deaths := deaths_;
     assists := assists_; championId := 1; win := win_;
     teamEarlySurrendered := false; totalTimeSpentDead := 0; timePlayed := 900;
     longestTimeSpentLiving := 300; tier := "GOLD"; rank := "II";
     championLevel := 5; championPoints := 1000 |}.




(** One match with 7 kills, no death and 3 assists. *)
Definition deathless : list player_match := [row "M1" "A" 7 0 3 true].


(** A participant with 3 kills, no death and 4 assists. *)
Definition player (p : string) : participant :=
  {| p_puuid := p; p_teamId := 100; p_summonerLevel := 30; p_role := "SOLO";
     p_teamPosition := "TOP"; p_kills := 3; p_deaths := 0; p_assists := 4;
     p_championId := 1; p_win := true; p_teamEarlySurrendered := false;
     p_totalTimeSpentDead := 0; p_timePlayed := 900; p_longestTimeSpentLiving := 900;
     p_gameEndedInSurrender := false; p_gameEndedInEarlySurrender := false |}.

(** A swiftplay match played by A, B and C. *)
Definition m1 : match_details :=
  {| metadata_matchId := "M1"; metadata_participants := ["A"; "B"; "C"];
     info_gameDuration := 900; info_endOfGameResult := None;
     info_participants := [player "A"; player "B"; player "C"] |}.

(** A remote where A has the swiftplay match M1 and nobody has any other
    match. *)
Definition api_m1 : remote :=
  {| league_entries := fun _ _ _ => Ok [{| le_puuid := "A" |}];
     match_ids := fun p q =>
       if String.eqb p "A" && String.eqb q "swiftplay" then Ok ["M1"] else Ok [];
     match_details_of := fun m =>
       if String.eqb m "M1" then Ok m1 else Raise (Exception "404");
     player_rank := fun _ => Ok [];
     champion_mastery := fun _ _ => Ok None;
     randint := fun _ => 1%Z |}.



(** A directory holding only the checkpoint [["A", "B"]]. *)
Definition checkpoint_ab : DataManager.t :=
  DataManager.mk None None None None None (Some ["A"; "B"]) ∅.

Definition fresh_locals : frame :=
  {| iterations := 0; add_to_queue := true; current_puuid := None |}.

(** A scheduler with A and B queued and visited. *)
Definition two_queued : t :=
  set_visited_puuids {["A"; "B"]} (set_queue ["A"; "B"] (init checkpoint_ab)).

(** The ids "0" ... "999". *)
Definition backlog : list string := pretty <$> seq 0 1000.

(** A scheduler with A and the backlog queued and visited: 1001 ids. *)
Definition full_backlog : t :=
  set_visited_puuids (list_to_set ("A" :: backlog))
    (set_queue ("A" :: backlog) (init checkpoint_ab)).

(** One round of the loop on [two_queued] and on [full_backlog]. *)
Definition round_m1 : res unit * frame * t * list event :=
  bfs_while api_m1 1 fresh_locals two_queued.

Definition round_full : res unit * frame * t * list event :=
  bfs_while api_m1 1 fresh_locals full_backlog.

(** Resuming from [checkpoint_ab]: the object when [bfs] is entered, and
    after one round. *)
Definition restored : res bool * t * list event := restore (init checkpoint_ab).

Definition resumed_round : res unit * t * list event :=
  resume_from_queue api_m1 1 (init checkpoint_ab).

Definition resume_argv : Main.argv :=
  {| Main.opt_resume := true; Main.opt_tier := None; Main.opt_division := None |}.


End Worlds.

(** ** common.py *)

Module Common.

(** The custom order of the categories. *)
Definition rank_order : list string :=
  ["UNRANKED";
   "IRON IV"; "IRON III"; "IRON II"; "IRON I";
   "BRONZE IV"; "BRONZE III"; "BRONZE II"; "BRONZE I";
   "SILVER IV"; "SILVER III"; "SILVER II"; "SILVER I";
   "GOLD IV"; "GOLD III"; "GOLD II"; "GOLD I";
   "PLATINUM IV"; "PLATINUM III"; "PLATINUM II"; "PLATINUM I";
   "EMERALD IV"; "EMERALD III"; "EMERALD II"; "EMERALD I";
   "DIAMOND IV"; "DIAMOND III"; "DIAMOND II"; "DIAMOND I";
   "MASTER I"; "GRANDMASTER I"; "CHALLENGER I"].

(** [preprocess], for one row:
    [df["full_rank"] = df["tier"] + " " + df["rank"]], then
    [.replace("UNRANKED UNRANKED", "UNRANKED")], which replaces whole
    values. *)
Definition full_rank (tier_ rank_ : string) : string :=
  let full_rank := (tier_ ++ " " ++ rank_)%string in
  if String.eqb full_rank "UNRANKED UNRANKED" then "UNRANKED" else full_rank.

(** Position of a value among the categories. *)
Fixpoint index_of (value : string) (categories : list string) : option nat :=
  match categories with
  | [] => None
  | category :: rest =>
      if String.eqb value category then Some O else S <$> index_of value rest
  end.

(** [.astype(rank_type)]: the code of the value in the ordered categorical
    type, [None] (NaN) for a value that is not a category. *)
Definition astype_rank (value : string) : option nat := index_of value rank_order.

End Common.

(** ** data_aggregator.py *)

Module DataAggregator.



Section Merge.
Context {A : Type} `{EqDecision A}.


(** The file [file_name] of each subfolder: its rows, or [None] when the
    subfolder has no such file. *)
Variable read_csv : string -> option (list A).



End Merge.


End DataAggregator.

(** ** Vocabulary of the further properties *)

Module StoreVocabulary.
Import DataManager.

(** The files of a store, without the cache. *)
Definition same_files (a b : DataManager.t) : Prop :=
  swiftplay_player_match_file a = swiftplay_player_match_file b /\
  ranked_player_match_file a = ranked_player_match_file b /\
  swiftplay_matches_file a = swiftplay_matches_file b /\
  ranked_matches_file a = ranked_matches_file b /\
  players_file a = players_file b /\
  queue_state_file a = queue_state_file b.

(** The rows of a file, none when the file is missing. *)
Definition rows_of {A} (file : option (list A)) : list A := default [] file.

End StoreVocabulary.

Module RequestVocabulary.
Import Request.

(** Number of calls of [requests.get] in a trace. *)
Definition requests_made (tr : list event) : nat :=
  length (List.filter (fun e => match e with Get _ => true | Sleep _ => false end) tr).

(** The response ends the loop with [return]: a 200 whose body parses, or a
    404 when [allow_404] is set. *)
Definition returns {J} (allow_404 : bool) (o : http_outcome J) (r : option J) : Prop :=
  match o with
  | Response status_code _ json =>
      (status_code = 200%Z /\ json = r /\ r <> None) \/
      (status_code = 404%Z /\ allow_404 = true /\ r = None)
  | RequestError _ => False
  end.

(** A response that is neither returned nor a 429. *)
Definition plain_failure {J} (allow_404 : bool) (o : http_outcome J) : Prop :=
  match o with
  | Response status_code _ json =>
      (status_code = 200%Z /\ json = None) \/
      (status_code = 404%Z /\ allow_404 = false) \/
      (status_code <> 200%Z /\ status_code <> 404%Z /\ status_code <> 429%Z)
  | RequestError _ => True
  end.

(** Every status is 503. *)
Definition always_503 (n : nat) : http_outcome unit := Response 503 NoHeader None.

(** Every status is 404. *)
Definition always_404 (n : nat) : http_outcome unit := Response 404 NoHeader None.

End RequestVocabulary.

Module RateLimitVocabulary.
Import RateLimit.
Local Open Scope Q_scope.

(** The short window is the tail of the long one. *)
Definition mirrored (self : t) : Prop :=
  exists older, request_times_long self = older ++ request_times_short self.

(** No recorded timestamp is later than [now]. *)
Definition not_ahead (now : Q) (self : t) : Prop :=
  Forall (fun ts => ts <= now) (request_times_short self) /\
  Forall (fun ts => ts <= now) (request_times_long self).

(** A limiter of one request per window that recorded a request at time 0. *)
Definition one_each : t := mk 1 1 [0] [0].

(** The limiter after the calls of [burst]. *)
Definition after_burst : t * Q :=
  default (init 20 100, 0) (run_calls (init 20 100) 0 burst).

End RateLimitVocabulary.

Module AggregateVocabulary.

(** The three columns of a participant row that go into the summary. *)
Definition rank_columns (match_ : player_match) : string * string * Z :=
  (tier match_, rank match_, summonerLevel match_).

Definition is_ranked (match_ : player_match) : bool :=
  negb (String.eqb (tier match_) "UNRANKED").

(** An unranked and a ranked match of A. *)
Definition unranked_then_gold : list player_match :=
  [ {| matchId := "M1"; puuid := "A"; teamId := 100; summonerLevel := 29;
       role := "SOLO"; teamPosition := "TOP"; kills := 1; deaths := 2; assists := 3;
       championId := 1; win := true; teamEarlySurrendered := false;
       totalTimeSpentDead := 0; timePlayed := 900; longestTimeSpentLiving := 300;
       tier := "UNRANKED"; rank := "UNRANKED"; championLevel := 5;
       championPoints := 1000 |};
    Worlds.row "M2" "A" 4 0 1 true ].

End AggregateVocabulary.

Module CrawlVocabulary.
Import LeagueBFS StoreVocabulary.

(** A relation on stores, read on the store of the object. *)
Definition store_step (S : DataManager.t -> DataManager.t -> Prop) (self self' : t)
  : Prop :=
  S (data_manager self) (data_manager self').

(** [sat] for a call on one given object. *)
Definition sat_at (R : t -> t -> Prop) {A} (m : M A) (self : t) : Prop :=
  forall r self' ev, m self = (r, self', ev) -> R self self' /\ Forall processing ev.

(** A method relates the object before and after by [R], whatever its
    events. *)
Definition relates (R : t -> t -> Prop) {A} (m : M A) : Prop :=
  forall self r self' ev, m self = (r, self', ev) -> R self self'.

(** Rows were appended to a file, or nothing happened to it. *)
Definition grown {A} (before after : option (list A)) : Prop :=
  exists more, rows_of after = rows_of before ++ more.

(** No row of the five CSV files is removed or changed. *)
Definition append_only (a b : DataManager.t) : Prop :=
  grown (DataManager.swiftplay_player_match_file a)
        (DataManager.swiftplay_player_match_file b) /\
  grown (DataManager.ranked_player_match_file a)
        (DataManager.ranked_player_match_file b) /\
  grown (DataManager.swiftplay_matches_file a) (DataManager.swiftplay_matches_file b) /\
  grown (DataManager.ranked_matches_file a) (DataManager.ranked_matches_file b) /\
  grown (DataManager.players_file a) (DataManager.players_file b).

(** Every cached id is the id of a stored match. *)
Definition cache_sound (d : DataManager.t) : Prop :=
  forall match_id, match_id ∈ DataManager.match_id_cache d ->
    match_id ∈ DataManager.match_ids_of (DataManager.swiftplay_matches_file d) \/
    match_id ∈ DataManager.match_ids_of (DataManager.ranked_matches_file d).

Definition keeps_cache_sound (a b : DataManager.t) : Prop :=
  cache_sound a -> cache_sound b.

Definition keeps_checkpoint (a b : DataManager.t) : Prop :=
  DataManager.queue_state_file b = DataManager.queue_state_file a.

End CrawlVocabulary.

Module RowVocabulary.
Import LeagueBFS.

(** The row written for a participant of a match: the id of the match and
    the columns copied from the payload. *)
Definition copied (match_id : string) (p : participant) (r : player_match) : Prop :=
  matchId r = match_id /\ puuid r = p_puuid p /\ teamId r = p_teamId p /\
  summonerLevel r = p_summonerLevel p /\ role r = p_role p /\
  teamPosition r = p_teamPosition p /\ kills r = p_kills p /\ deaths r = p_deaths p /\
  assists r = p_assists p /\ championId r = p_championId p /\ win r = p_win p /\
  teamEarlySurrendered r = p_teamEarlySurrendered p /\
  totalTimeSpentDead r = p_totalTimeSpentDead p /\ timePlayed r = p_timePlayed p /\
  longestTimeSpentLiving r = p_longestTimeSpentLiving p.

(** The rank columns of a row are those of the payload cached for its
    player. *)
Definition ranked_as (self : t) (r : player_match) : Prop :=
  exists rank_info,
    rank_cache (api_client self) !! puuid r = Some rank_info /\
    (tier r, rank r) = solo_rank_of rank_info.

(** The caches only gain entries. *)
Definition caches_grow (self self' : t) : Prop :=
  rank_cache (api_client self) ⊆ rank_cache (api_client self') /\
  champion_mastery_cache (api_client self) ⊆ champion_mastery_cache (api_client self').

(** The three participants of [Worlds.m1] on [Worlds.two_queued]. *)
Definition extracted_m1 : res (list player_match) * t * list event :=
  _extract_player_matches Worlds.api_m1 Worlds.m1 "M1" Worlds.two_queued.

End RowVocabulary.

Module TraceVocabulary.
Import LeagueBFS.

(** Every trace of a method satisfies [P]. *)
Definition traces (P : list event -> Prop) {A} (m : M A) : Prop :=
  forall self r self' ev, m self = (r, self', ev) -> P ev.

(** Logs, dequeues and checkpoints: no request, no record written. *)
Definition bookkeeping (e : event) : Prop :=
  match e with
  | Log _ _ | Popleft _ _ | SaveQueueState _ => True
  | _ => False
  end.

Definition is_league_request (e : event) : bool :=
  match e with
  | GetLeagueEntries _ _ _ => true
  | _ => false
  end.

(** Number of pages of league entries requested. *)
Definition league_requests (ev : list event) : nat :=
  length (List.filter is_league_request ev).

(** A page request is for the given division, and its page is one of the
    draws number [first], ..., [first + count - 1]. *)
Definition page_of (api : remote) (tier_ division : string) (first count : nat)
    (e : event) : Prop :=
  match e with
  | GetLeagueEntries t d page =>
      t = tier_ /\ d = division /\
      exists k, (first <= k < first + count)%nat /\ page = randint api k
  | _ => True
  end.

(** No page of league entries is requested. *)
Definition no_league (ev : list event) : Prop :=
  Forall (fun e => is_league_request e = false) ev.

(** The five CSV files and the cache are the same. *)
Definition same_records (a b : DataManager.t) : Prop :=
  DataManager.swiftplay_player_match_file b = DataManager.swiftplay_player_match_file a /\
  DataManager.ranked_player_match_file b = DataManager.ranked_player_match_file a /\
  DataManager.swiftplay_matches_file b = DataManager.swiftplay_matches_file a /\
  DataManager.ranked_matches_file b = DataManager.ranked_matches_file a /\
  DataManager.players_file b = DataManager.players_file a /\
  DataManager.match_id_cache b = DataManager.match_id_cache a.

(** A queued and summarized: a store with a summary of A, and A queued. *)
Definition summarized_a : t :=
  snd (fst (_process_player Worlds.api_m1 "A" true Worlds.two_queued)).

Definition requeued_a : t := set_queue ["A"] summarized_a.


End TraceVocabulary.

Module OrderVocabulary.
Import LeagueBFS.

(** Every row of a matches file is written right after participant rows
    were handed to [save_player_matches] for the same category; [prev] is
    the event before the trace. *)
Fixpoint rows_first (prev : option event) (ev : list event) : Prop :=
  match ev with
  | [] => True
  | e :: tl =>
      match e with
      | SaveMatch _ queue_type =>
          exists rows, prev = Some (SavePlayerMatches rows queue_type)
      | _ => True
      end /\ rows_first (Some e) tl
  end.

Definition writes_no_match (e : event) : Prop :=
  match e with
  | SaveMatch _ _ => False
  | _ => True
  end.

End OrderVocabulary.

Module CheckpointVocabulary.
Import LeagueBFS.



End CheckpointVocabulary.

(** * Properties *)

(** ** The rate limiter *)

Module RateLimitFacts.
Import RateLimit.
Local Open Scope Q_scope.

Lemma Qgtb_true (x y : Q) : Qgtb x y = true <-> y < x.
Proof.
  unfold Qgtb. rewrite negb_true_iff. split.
  - intros H. apply Qnot_le_lt. intros Hle. apply Qle_bool_iff in Hle. congruence.
  - intros H. destruct (Qle_bool x y) eqn:E; [|reflexivity].
    apply Qle_bool_iff in E. lra.
Qed.

Lemma Qgtb_false (x y : Q) : Qgtb x y = false <-> x <= y.
Proof.
  unfold Qgtb. rewrite negb_false_iff. apply Qle_bool_iff.
Qed.

Lemma ascending_snoc (times : list Q) (now : Q) :
  ascending times -> Forall (fun ts => ts <= now) times -> ascending (times ++ [now]).
Proof.
  induction times as [|ts rest IH]; simpl; intros Hasc Hle.
  - split; [constructor | exact I].
  - destruct Hasc as [Hhd Hasc]. inversion Hle; subst. split.
    + apply Forall_app. split; [assumption | repeat constructor; assumption].
    + apply IH; assumption.
Qed.

Lemma younger_le_length (window now : Q) (times : list Q) :
  (younger window now times <= length times)%nat.
Proof.
  induction times as [|ts rest IH]; simpl; [lia|].
  destruct (Qgtb window (now - ts)); lia.
Qed.

Lemma younger_app (window now : Q) (a b : list Q) :
  younger window now (a ++ b) = (younger window now a + younger window now b)%nat.
Proof.
  induction a as [|ts rest IH]; simpl; [reflexivity|]. rewrite IH. lia.
Qed.

Lemma younger_all (window now : Q) (times : list Q) :
  Forall (fun ts => now - ts < window) times ->
  younger window now times = length times.
Proof.
  induction 1 as [|ts rest Hts _ IH]; simpl; [reflexivity|].
  apply Qgtb_true in Hts. rewrite Hts, IH. reflexivity.
Qed.

(** What the purge leaves: a suffix whose timestamps are at most [window]
    old. *)
Lemma popleft_old_spec (window current_time : Q) (times : list Q) :
  ascending times ->
  exists dropped,
    times = dropped ++ popleft_old window current_time times /\
    ascending (popleft_old window current_time times) /\
    Forall (fun ts => current_time - ts <= window)
           (popleft_old window current_time times).
Proof.
  induction times as [|ts rest IH]; simpl; intros Hasc.
  - exists []. repeat split; constructor.
  - destruct Hasc as [Hhd Hasc].
    destruct (Qgtb (current_time - ts) window) eqn:E.
    + destruct (IH Hasc) as (dropped & Heq & Hasc' & Hall).
      exists (ts :: dropped). simpl. rewrite <- Heq. auto.
    + apply Qgtb_false in E. exists []. simpl. repeat split; try assumption.
      constructor; [assumption|].
      eapply Forall_impl; [exact Hhd|]. simpl. intros a Ha. lra.
Qed.

Lemma window_step (window : Q) (limit : nat) (times : list Q) (last t0 : Q) :
  (1 <= limit)%nat -> window_ok window limit times last -> last < t0 ->
  exists w,
    wait_for limit window t0 (popleft_old window t0 times) = Some w /\ 0 <= w /\
    forall now, t0 + w <= now ->
      window_ok window limit (popleft_old window t0 times ++ [now]) now.
Proof.
  intros Hlim (Hasc & Hle & Hcount) Hlt.
  destruct (popleft_old_spec window t0 times Hasc) as (dropped & Heq & Hasc' & Hold).
  set (p := popleft_old window t0 times) in *.
  assert (Hle' : Forall (fun ts => ts <= last) p).
  { rewrite Heq in Hle. apply Forall_app in Hle. tauto. }
  assert (Hlen : (length p <= limit)%nat).
  { assert (Hy : younger window last p = length p).
    { apply younger_all. rewrite Forall_forall in *. intros ts Hin.
      specialize (Hold ts Hin). lra. }
    rewrite Heq, younger_app in Hcount. lia. }
  assert (Hnew : forall now, (younger window now [now] <= 1)%nat).
  { intros now. simpl. destruct (Qgtb window (now - now)); lia. }
  assert (Hshape : forall now, t0 <= now ->
            ascending (p ++ [now]) /\ Forall (fun ts => ts <= now) (p ++ [now])).
  { intros now Hnow.
    assert (Forall (fun ts => ts <= now) p).
    { eapply Forall_impl; [exact Hle'|]. simpl. intros a Ha. lra. }
    split; [apply ascending_snoc; assumption|].
    apply Forall_app. split; [assumption|]. repeat constructor. lra. }
  unfold wait_for. destruct (limit <=? length p)%nat eqn:Efull.
  - apply Nat.leb_le in Efull. destruct p as [|oldest rest] eqn:Ep; [simpl in *; lia|].
    exists (if Qgtb (window - (t0 - oldest)) 0 then window - (t0 - oldest) else 0).
    split; [reflexivity|].
    destruct (Qgtb (window - (t0 - oldest)) 0) eqn:Ew.
    + apply Qgtb_true in Ew. split; [lra|]. intros now Hnow.
      destruct (Hshape now ltac:(lra)) as [H1 H2]. split; [exact H1|]. split; [exact H2|].
      rewrite younger_app. specialize (Hnew now). simpl younger at 1.
      assert (E : Qgtb window (now - oldest) = false) by (apply Qgtb_false; lra).
      rewrite E. pose proof (younger_le_length window now rest). simpl in Hlen. lia.
    + apply Qgtb_false in Ew. split; [lra|]. intros now Hnow.
      destruct (Hshape now ltac:(lra)) as [H1 H2]. split; [exact H1|]. split; [exact H2|].
      rewrite younger_app. specialize (Hnew now). simpl younger at 1.
      assert (E : Qgtb window (now - oldest) = false) by (apply Qgtb_false; lra).
      rewrite E. pose proof (younger_le_length window now rest). simpl in Hlen. lia.
  - apply Nat.leb_gt in Efull. exists 0. split; [reflexivity|]. split; [lra|].
    intros now Hnow. destruct (Hshape now ltac:(lra)) as [H1 H2].
    split; [exact H1|]. split; [exact H2|].
    rewrite younger_app. specialize (Hnew now).
    pose proof (younger_le_length window now p). lia.
Qed.

Lemma wait_if_needed_ok (n m : nat) (self : t) (last gap lag : Q) :
  (1 <= n)%nat -> (1 <= m)%nat -> limiter_ok n m self last ->
  0 < gap -> 0 <= lag ->
  exists g, wait_if_needed self (last + gap) lag = Some g /\
    limiter_ok n m (limiter g) (recorded g).
Proof.
  intros Hn Hm (En & Em & Hs & Hl) Hgap Hlag.
  destruct (window_step 1 n _ last (last + gap) Hn Hs ltac:(lra)) as (w1 & E1 & Hw1 & K1).
  destruct (window_step 120 m _ last (last + gap) Hm Hl ltac:(lra)) as (w2 & E2 & Hw2 & K2).
  unfold wait_if_needed. rewrite En, Em, E1, E2. eexists. split; [reflexivity|].
  simpl. repeat split; try reflexivity.
  - apply K1. lra.
  - apply K1. lra.
  - apply K1. lra.
  - apply K2. lra.
  - apply K2. lra.
  - apply K2. lra.
Qed.

Lemma run_calls_ok (n m : nat) (calls : list (Q * Q)) :
  (1 <= n)%nat -> (1 <= m)%nat -> Forall clock_ok calls ->
  forall self last, limiter_ok n m self last ->
  exists self' now, run_calls self last calls = Some (self', now) /\
    limiter_ok n m self' now.
Proof.
  intros Hn Hm. induction 1 as [|[gap lag] rest [Hgap Hlag] _ IH]; intros self last Hok.
  - exists self, last. split; [reflexivity | assumption].
  - simpl in Hgap, Hlag.
    destruct (wait_if_needed_ok n m self last gap lag Hn Hm Hok Hgap Hlag) as (a & Ea & Hok').
    simpl. rewrite Ea. apply IH. assumption.
Qed.

Lemma init_ok (n m : nat) (start : Q) : limiter_ok n m (init n m) start.
Proof.
  repeat split; simpl; try constructor; lia.
Qed.

(** C5 (amended): for every sequence of calls of [wait_if_needed] on a
    limiter created with the limits 20 and 100, where each call reads a
    clock value strictly later than the previous recording and each sleep
    lasts at least as long as requested, the call returns, and at the
    moment the request is recorded the short window holds at most 20
    timestamps younger than 1 second and the long window at most 100
    timestamps younger than 120 seconds.  The sleeps requested are long
    enough for that; when both windows are full they add up to more than
    is needed. *)
Theorem wait_if_needed_within_budgets (start : Q) (calls : list (Q * Q)) :
  Forall clock_ok calls ->
  exists self now,
    run_calls (init 20 100) start calls = Some (self, now) /\
    (younger 1 now (request_times_short self) <= 20)%nat /\
    (younger 120 now (request_times_long self) <= 100)%nat.
Proof.
  intros Hcalls.
  destruct (run_calls_ok 20 100 calls ltac:(lia) ltac:(lia) Hcalls _ _ (init_ok 20 100 start))
    as (self & now & E & _ & _ & (_ & _ & Hs) & (_ & _ & Hl)).
  exists self, now. auto.
Qed.

Lemma wait_if_needed_within_budgets_witness :
  Forall clock_ok burst /\
  exists self now,
    run_calls (init 20 100) 0 burst = Some (self, now) /\
    (younger 1 now (request_times_short self) <= 20)%nat /\
    (younger 120 now (request_times_long self) <= 100)%nat.
Proof.
  assert (H : Forall clock_ok burst).
  { apply List.Forall_forall. intros c Hc. unfold burst in Hc.
    apply in_app_or in Hc. destruct Hc as [Hc | [Hc | Hc]].
    - apply repeat_spec in Hc. subst c. split; vm_compute; congruence.
    - subst c. split; vm_compute; congruence.
    - apply repeat_spec in Hc. subst c. split; vm_compute; congruence. }
  split; [exact H | exact (wait_if_needed_within_budgets 0 burst H)].
Defined.

(** With both windows full the two sleeps add up to 21.01 seconds, although
    both budgets already hold after 20.5 seconds. *)
Lemma wait_if_needed_sleeps_longer_than_needed :
  exists self last a,
    run_calls (init 20 100) 0 burst = Some (self, last) /\
    wait_if_needed self (last + (3 # 10)) 0 = Some a /\
    slept_short a == 51 # 100 /\ slept_long a == 41 # 2 /\
    let t0 := last + (3 # 10) in
    let now := t0 + (41 # 2) in
    now < recorded a /\
    (younger 1 now (popleft_old 1 t0 (request_times_short self) ++ [now]) <= 20)%nat /\
    (younger 120 now (popleft_old 120 t0 (request_times_long self) ++ [now]) <= 100)%nat.
Proof.
  eexists _, _, _.
  split; [vm_compute; reflexivity|].
  split; [vm_compute; reflexivity|].
  vm_compute. repeat split; try reflexivity; lia.
Qed.

End RateLimitFacts.

(** ** The request loop *)

Module RequestFacts.
Import Request.

Section Facts.
Context {J : Type}.
Variable server : nat -> http_outcome J.
Variable allow_404 : bool.

(** The loop is left after at most [max_retries - retry_count] rounds. *)
Lemma attempts_total (fuel : nat) (retry_count : Z) (n : nat) (tr : list event) :
  (max_retries - retry_count <= Z.of_nat fuel)%Z ->
  result (attempts server allow_404 fuel retry_count n tr) <> OutOfFuel.
Proof.
  revert retry_count n tr. induction fuel as [|fuel IH]; intros rc n tr Hfuel; simpl.
  - destruct (rc <? max_retries)%Z eqn:E; [apply Z.ltb_lt in E; lia | discriminate].
  - destruct (rc <? max_retries)%Z eqn:E; [|discriminate].
    destruct (server n) as [status_code retry_after json|msg]; simpl.
    + destruct (status_code =? 200)%Z; [destruct json; [discriminate|apply IH; lia]|].
      destruct ((status_code =? 404)%Z && allow_404); [discriminate|].
      destruct (status_code =? 429)%Z; apply IH; lia.
    + apply IH; lia.
Qed.

(** A 429 response is charged to the budget like any failed attempt. *)
Lemma attempts_429 (fuel : nat) (retry_count : Z) (n : nat) (tr : list event)
    (retry_after : retry_after_header) (json : option J) :
  (retry_count < max_retries)%Z ->
  server n = Response 429 retry_after json ->
  attempts server allow_404 (S fuel) retry_count n tr =
  attempts server allow_404 fuel (retry_count + 1) (S n)
    ((tr ++ [Get n]) ++ rate_limited retry_after ++ [Sleep (2 ^ (retry_count + 1))]).
Proof.
  intros Hlt Hs. simpl. apply Z.ltb_lt in Hlt. rewrite Hlt, Hs. simpl.
  destruct allow_404; reflexivity.
Qed.

Lemma attempts_200 (fuel : nat) (retry_count : Z) (n : nat) (tr : list event)
    (retry_after : retry_after_header) (j : J) :
  (retry_count < max_retries)%Z ->
  server n = Response 200 retry_after (Some j) ->
  attempts server allow_404 (S fuel) retry_count n tr =
  {| result := Ok (Some j); retry_count := retry_count; trace := tr ++ [Get n] |}.
Proof.
  intros Hlt Hs. simpl. apply Z.ltb_lt in Hlt. rewrite Hlt, Hs. reflexivity.
Qed.

(** C4 (amended): [_make_request] always leaves its loop; a 429 response
    makes the client sleep for the Retry-After duration (60 seconds when the
    header is absent) and is then charged to the budget of 3 attempts like
    any other failure, with the backoff sleep of 2^retry_count seconds
    before the same call is retried.  So one 429 followed by a success
    returns the payload with [retry_count = 1], and three 429 responses in
    a row end in the terminal error. *)
Theorem make_request_429_counts_as_attempt :
  result (_make_request server allow_404) <> OutOfFuel /\
  (forall h0 js0 h1 j,
     server 0%nat = Response 429 h0 js0 ->
     server 1%nat = Response 200 h1 (Some j) ->
     _make_request server allow_404 =
     {| result := Ok (Some j); retry_count := 1;
        trace := [Get 0] ++ rate_limited h0 ++ [Sleep 2; Get 1] |}) /\
  (forall h0 js0 h1 js1 h2 js2,
     server 0%nat = Response 429 h0 js0 ->
     server 1%nat = Response 429 h1 js1 ->
     server 2%nat = Response 429 h2 js2 ->
     _make_request server allow_404 =
     {| result := Raise (Exception "Failed to get response after 3 retries");
        retry_count := 3;
        trace := [Get 0] ++ rate_limited h0 ++ [Sleep 2; Get 1] ++ rate_limited h1
                 ++ [Sleep 4; Get 2] ++ rate_limited h2 ++ [Sleep 8] |}).
Proof.
  split; [apply attempts_total; vm_compute; discriminate|].
  unfold _make_request. change (Z.to_nat max_retries) with 3%nat. split.
  - intros h0 js0 h1 j H0 H1.
    rewrite (attempts_429 _ _ _ _ h0 js0) by (reflexivity || assumption).
    rewrite (attempts_200 _ _ _ _ h1 j) by (reflexivity || assumption).
    simpl. rewrite <- ?app_assoc. reflexivity.
  - intros h0 js0 h1 js1 h2 js2 H0 H1 H2.
    rewrite (attempts_429 _ _ _ _ h0 js0) by (reflexivity || assumption).
    rewrite (attempts_429 _ _ _ _ h1 js1) by (reflexivity || assumption).
    rewrite (attempts_429 _ _ _ _ h2 js2) by (reflexivity || assumption).
    simpl. rewrite <- ?app_assoc. simpl. rewrite <- ?app_assoc. reflexivity.
Qed.

End Facts.

Lemma make_request_429_counts_as_attempt_witness :
  _make_request once_429 false =
  {| result := Ok (Some tt); retry_count := 1;
     trace := [Get 0; Sleep 2; Sleep 2; Get 1] |}.
Proof.
  exact (proj1 (proj2 (make_request_429_counts_as_attempt once_429 false))
           (IntHeader 2) None NoHeader tt eq_refl eq_refl).
Defined.

(** One 429 uses up one of the three attempts, and three of them all. *)
Lemma make_request_429_consumes_budget :
  retry_count (_make_request once_429 false) = 1%Z /\
  _make_request thrice_429 false =
  {| result := Raise (Exception "Failed to get response after 3 retries");
     retry_count := 3;
     trace := [Get 0; Sleep 2; Sleep 2; Get 1; Sleep 2; Sleep 4; Get 2; Sleep 2; Sleep 8] |}.
Proof. split; reflexivity. Qed.

End RequestFacts.

(** ** The record store *)

Module DataManagerFacts.
Import DataManager.








Lemma player_match_file_set (queue_type : string) (rows : list player_match) (self : t) :
  player_match_file queue_type (set_player_match_file queue_type rows self) = Some rows.
Proof.
  unfold player_match_file, set_player_match_file.
  destruct (is_swiftplay queue_type) eqn:E; simpl; rewrite ?E; reflexivity.
Qed.

Lemma save_player_matches_rows (player_matches existing : list player_match)
    (queue_type : string) (self : t) :
  player_match_file queue_type self = Some existing ->
  exists self1,
    save_player_matches player_matches queue_type self = Ok self1 /\
    player_match_file queue_type self1
    = Some (existing ++ new_matches existing player_matches).
Proof.
  intros Hfile. unfold save_player_matches. rewrite Hfile.
  fold (new_matches existing player_matches).
  destruct (new_matches existing player_matches) as [|m ms] eqn:E.
  - exists self. rewrite app_nil_r. auto.
  - eexists. split; [reflexivity|]. apply player_match_file_set.
Qed.








Import Worlds.




End DataManagerFacts.

(** ** The aggregation *)

Module AggregateFacts.
Import Aggregate.
Local Open Scope Q_scope.

Lemma fold_add_match (data : list player_match) (st : stats) :
  let st' := fold_left add_match data st in
  s_kills st' = (s_kills st + total kills data)%Z /\
  s_deaths st' = (s_deaths st + total deaths data)%Z /\
  s_assists st' = (s_assists st + total assists data)%Z /\
  s_wins st' = (s_wins st + wins data)%Z /\
  total_games st' = total_games st.
Proof.
  revert st. induction data as [|m data IH]; intros st; simpl.
  - unfold wins, total. simpl. repeat split; lia.
  - destruct (IH (add_match st m)) as (H1 & H2 & H3 & H4 & H5).
    unfold wins, total in *. simpl in *. destruct (win m); repeat split; lia.
Qed.

Lemma sum_stats_totals (data : list player_match) :
  sum_stats data =
  {| s_kills := total kills data; s_deaths := total deaths data;
     s_assists := total assists data; s_wins := wins data;
     total_games := Z.of_nat (length data) |}.
Proof.
  unfold sum_stats.
  destruct (fold_add_match data
    {| s_kills := 0; s_deaths := 0; s_assists := 0; s_wins := 0;
       total_games := Z.of_nat (length data) |}) as (H1 & H2 & H3 & H4 & H5).
  simpl in *.
  destruct (fold_left add_match data _) as [k d a w g]. simpl in *. subst. reflexivity.
Qed.

(** C6: in the summary of a player the kill/death and assist/death ratios
    of each category are the sums over the category's matches divided by
    [max 1 deaths], so that with no death the kill/death ratio is the
    number of kills; the win/loss ratio is the number of wins divided by
    [max 1 (games - wins)]; and with no ranked match every ranked field is
    [None]. *)
Theorem aggregate_player_data_ratios (puuid_ : string)
    (swiftplay_data ranked_data : list player_match) :
  let d := _aggregate_player_data puuid_ swiftplay_data ranked_data in
  let games (data : list player_match) := Z.of_nat (length data) in
  (* swiftplay: denominators floored at 1 *)
  swiftplay_kd d = div (total kills swiftplay_data) (Z.max 1 (total deaths swiftplay_data)) /\
  swiftplay_ad d = div (total assists swiftplay_data) (Z.max 1 (total deaths swiftplay_data)) /\
  swiftplay_win_loss_ratio d
  = div (wins swiftplay_data) (Z.max 1 (games swiftplay_data - wins swiftplay_data)) /\
  (total deaths swiftplay_data = 0%Z ->
   swiftplay_kd d == inject_Z (total kills swiftplay_data)) /\
  (* ranked, when there is ranked data *)
  (ranked_data <> [] ->
   ranked_kd d = Some (div (total kills ranked_data) (Z.max 1 (total deaths ranked_data))) /\
   ranked_ad d = Some (div (total assists ranked_data) (Z.max 1 (total deaths ranked_data))) /\
   ranked_win_loss_ratio d
   = Some (div (wins ranked_data) (Z.max 1 (games ranked_data - wins ranked_data))) /\
   (total deaths ranked_data = 0%Z ->
    exists r, ranked_kd d = Some r /\ r == inject_Z (total kills ranked_data))) /\
  (* no ranked match: every ranked field is None *)
  (ranked_data = [] ->
   ranked_kills d = None /\ ranked_deaths d = None /\ ranked_assists d = None /\
   ranked_kd d = None /\ ranked_ad d = None /\ ranked_kda d = None /\
   ranked_kad d = None /\ ranked_win_loss_ratio d = None).
Proof.
  intros d games. subst d. unfold _aggregate_player_data.
  destruct (rank_info swiftplay_data) as [[tier_ rank_] summoner_level].
  rewrite (sum_stats_totals swiftplay_data). simpl.
  unfold kd, ad, win_loss_ratio. simpl.
  split; [reflexivity|]. split; [reflexivity|]. split; [reflexivity|]. split.
  { intros ->. unfold div. simpl. unfold Qeq, Qdiv, Qmult, Qinv. simpl. lia. }
  split.
  - intros Hne. destruct ranked_data as [|m ms]; [contradiction|].
    rewrite (sum_stats_totals (m :: ms)). simpl.
    split; [reflexivity|]. split; [reflexivity|]. split; [reflexivity|].
    intros Hz. eexists. split; [reflexivity|]. rewrite Hz.
    unfold div. simpl. unfold Qeq, Qdiv, Qmult, Qinv. simpl. lia.
  - intros ->. simpl. repeat split; reflexivity.
Qed.

Lemma aggregate_player_data_ratios_witness :
  swiftplay_kd (_aggregate_player_data "A" Worlds.deathless []) == 7 /\
  ranked_kd (_aggregate_player_data "A" Worlds.deathless []) = None /\
  ranked_win_loss_ratio (_aggregate_player_data "A" Worlds.deathless []) = None.
Proof.
  destruct (aggregate_player_data_ratios "A" Worlds.deathless [])
    as (_ & _ & _ & Hkd & _ & Hnone).
  split; [exact (Hkd eq_refl)|].
  destruct (Hnone eq_refl) as (_ & _ & _ & H4 & _ & _ & _ & H8). split; assumption.
Defined.

End AggregateFacts.

(** ** The scheduler *)

Module SchedulerFacts.
Import LeagueBFS.

Lemma keeps_grows (self self' : t) : keeps self self' -> grows self self'.
Proof.
  intros [Hq Hv]. exists []. rewrite app_nil_r. repeat split; auto.
  - rewrite Hv, list_to_set_nil, (right_id_L ∅ (∪)). reflexivity.
  - constructor.
Qed.

Lemma grows_trans (a b c : t) : grows a b -> grows b c -> grows a c.
Proof.
  intros (x & Hq1 & Hv1 & Hn1 & Hf1) (y & Hq2 & Hv2 & Hn2 & Hf2).
  exists (x ++ y). rewrite Hq2, Hq1, Hv2, Hv1, app_assoc. split; [reflexivity|].
  split; [rewrite list_to_set_app_L, (assoc_L (∪)); reflexivity|].
  rewrite Forall_forall in Hf1, Hf2. split.
  - apply NoDup_app. split; [assumption|]. split; [|assumption].
    intros p Hp Hp'. apply (Hf2 p Hp'). rewrite Hv1.
    apply elem_of_union_r, elem_of_list_to_set. exact Hp.
  - apply Forall_app. split; apply Forall_forall; [exact Hf1|].
    intros p Hp Hin. apply (Hf2 p Hp). rewrite Hv1.
    apply elem_of_union_l. exact Hin.
Qed.

Lemma add_teammates_grows (participants : list string) (self : t) :
  grows self (add_teammates participants self).
Proof.
  revert self. induction participants as [|p ps IH]; intros self; simpl.
  - apply keeps_grows. split; reflexivity.
  - destruct (bool_decide (p ∈ visited_puuids self)) eqn:E; [apply IH|].
    apply bool_decide_eq_false in E.
    eapply grows_trans; [|apply IH].
    exists [p]. simpl. repeat split.
    + rewrite (right_id_L ∅ (∪)). apply (comm_L (∪)).
    + apply NoDup_singleton.
    + repeat constructor. exact E.
Qed.

Section Sat.
(** [R] relates the object before and after a call, and is kept by what
    the processing of a player does to the store and to the caches. *)
Variable R : t -> t -> Prop.
Hypothesis R_refl : forall self, R self self.
Hypothesis R_trans : forall a b c, R a b -> R b c -> R a c.
Hypothesis R_data_manager : forall self d, R self (set_data_manager d self).
Hypothesis R_api_client : forall self c, R self (set_api_client c self).

Lemma sat_ret {A} (a : A) : sat R (ret a).
Proof. intros self r self' ev [= <- <- <-]. auto. Qed.

Lemma sat_raise {A} (e : exn) : sat R (@raise A e).
Proof. intros self r self' ev [= <- <- <-]. auto. Qed.

Lemma sat_get : sat R get.
Proof. intros self r self' ev [= <- <- <-]. auto. Qed.

Lemma sat_emit (e : event) : processing e -> sat R (emit e).
Proof. intros He self r self' ev [= <- <- <-]. auto. Qed.

Lemma sat_effect {A} (e : event) (outcome : res A) : processing e -> sat R (effect e outcome).
Proof. intros He self r self' ev [= <- <- <-]. auto. Qed.

Lemma sat_modify (f : t -> t) : (forall self, R self (f self)) -> sat R (modify f).
Proof. intros Hf self r self' ev [= <- <- <-]. auto. Qed.

Lemma sat_bind {A B} (m : M A) (k : A -> M B) :
  sat R m -> (forall a, sat R (k a)) -> sat R (bind m k).
Proof.
  intros Hm Hk self r self' ev. unfold bind.
  destruct (m self) as [[[a|e|] self1] ev1] eqn:Em.
  - destruct (k a self1) as [[r2 self2] ev2] eqn:Ek. intros [= <- <- <-].
    destruct (Hm _ _ _ _ Em), (Hk a _ _ _ _ Ek). split; [eauto|].
    apply Forall_app; auto.
  - intros [= <- <- <-]. exact (Hm _ _ _ _ Em).
  - intros [= <- <- <-]. exact (Hm _ _ _ _ Em).
Qed.

Lemma sat_try_except {A} (m : M A) (h : exn -> M A) :
  sat R m -> (forall e, sat R (h e)) -> sat R (try_except m h).
Proof.
  intros Hm Hh self r self' ev. unfold try_except.
  destruct (m self) as [[[a|[msg|]|] self1] ev1] eqn:Em;
    try (intros [= <- <- <-]; exact (Hm _ _ _ _ Em)).
  destruct (h (Exception msg) self1) as [[r2 self2] ev2] eqn:Eh. intros [= <- <- <-].
  destruct (Hm _ _ _ _ Em), (Hh _ _ _ _ _ Eh). split; [eauto|].
  apply Forall_app; auto.
Qed.

Variable api : remote.

Ltac step :=
  match goal with
  | |- sat _ (bind _ _) => apply sat_bind; [|intros ?]
  | |- sat _ (ret _) => apply sat_ret
  | |- sat _ (raise _) => apply sat_raise
  | |- sat _ get => apply sat_get
  | |- sat _ (emit _) => apply sat_emit; exact I
  | |- sat _ (effect _ _) => apply sat_effect; exact I
  | |- sat _ (modify _) => apply sat_modify; intros ?; auto
  end.

Lemma sat_get_match_ids (puuid_ queue_type : string) :
  sat R (get_match_ids api puuid_ queue_type).
Proof. unfold get_match_ids. step. Qed.

Lemma sat_get_match_details (match_id : string) : sat R (get_match_details api match_id).
Proof. unfold get_match_details. step. Qed.

Lemma sat_get_player_rank (puuid_ : string) : sat R (get_player_rank api puuid_).
Proof.
  unfold get_player_rank. step; [step|].
  destruct (rank_cache (api_client a) !! puuid_); repeat step.
Qed.

Lemma sat_get_champion_mastery (puuid_ : string) (champion_id : Z) :
  sat R (get_champion_mastery api puuid_ champion_id).
Proof.
  unfold get_champion_mastery. step; [step|].
  destruct (champion_mastery_cache (api_client a) !! (puuid_, champion_id)); repeat step.
Qed.

Lemma sat_extract_match_info (md : match_details) : sat R (_extract_match_info md).
Proof. unfold _extract_match_info. destruct (info_participants md); step. Qed.

Lemma sat_extract_loop (participants : list participant) (match_id : string)
    (player_matches : list player_match) :
  sat R (extract_loop api participants match_id player_matches).
Proof.
  revert player_matches. induction participants as [|p ps IH]; intros pms; simpl.
  - step.
  - step; [apply sat_get_player_rank|].
    destruct (solo_rank_of a) as [tier_ rank_].
    step; [apply sat_get_champion_mastery|]. apply IH.
Qed.

Lemma sat_process_match (puuid_ match_id queue_type : string) (add_to_queue_ : bool)
    (player_match_data : list player_match) :
  (add_to_queue_ && String.eqb queue_type "swiftplay" = true ->
   forall participants self, R self (add_teammates participants self)) ->
  sat R (process_match api puuid_ match_id queue_type add_to_queue_ player_match_data).
Proof.
  intros Hadd. unfold process_match. step; [step|].
  destruct (DataManager.match_exists match_id queue_type (data_manager a)) as [known dm].
  step; [step|]. destruct known.
  - destruct (DataManager.get_player_match_data match_id puuid_ queue_type dm); step.
  - step; [apply sat_get_match_details|].
    step; [apply sat_extract_loop|].
    step; [step|]. step; [step|]. step; [step|].
    step; [apply sat_extract_match_info|]. step; [step|]. step; [step|].
    destruct (List.find _ _); [|step].
    step; [|step].
    destruct (add_to_queue_ && String.eqb queue_type "swiftplay") eqn:E; [|step].
    unfold _add_teammates_to_queue. apply sat_modify. intros ?. apply Hadd. reflexivity.
Qed.

Lemma sat_process_matches_loop (puuid_ : string) (match_ids_ : list string)
    (queue_type : string) (add_to_queue_ : bool) (player_match_data : list player_match) :
  (add_to_queue_ && String.eqb queue_type "swiftplay" = true ->
   forall participants self, R self (add_teammates participants self)) ->
  sat R (process_matches_loop api puuid_ match_ids_ queue_type add_to_queue_
         player_match_data).
Proof.
  intros Hadd. revert player_match_data.
  induction match_ids_ as [|match_id rest IH]; intros pmd; simpl.
  - step.
  - step; [|apply IH]. apply sat_try_except; [apply sat_process_match; exact Hadd|].
    intros e. step; step.
Qed.

Lemma sat_process_player (puuid_ : string) (add_to_queue_ : bool) :
  (add_to_queue_ = true ->
   forall participants self, R self (add_teammates participants self)) ->
  sat R (_process_player api puuid_ add_to_queue_).
Proof.
  intros Hadd. unfold _process_player. step; [step|].
  destruct (DataManager.player_exists puuid_ (data_manager a)); [step|].
  step; [apply sat_get_match_ids|].
  step.
  { apply sat_process_matches_loop. intros H. apply Hadd.
    apply andb_true_iff in H. tauto. }
  step; [apply sat_get_match_ids|].
  step; [apply sat_process_matches_loop; discriminate|].
  step; step.
Qed.

End Sat.




Section WithRemote.
Variable api : remote.

Lemma process_player_quiet (c : string) (flag : bool) (self : t) r self' ev :
  _process_player api c flag self = (r, self', ev) -> Forall processing ev.
Proof.
  intros E.
  refine (proj2 (sat_process_player (fun _ _ => True) _ _ _ _ api c flag _ _ _ _ _ E));
    auto.
Qed.

Lemma keeps_refl (self : t) : keeps self self.
Proof. split; reflexivity. Qed.

Lemma keeps_trans (a b c : t) : keeps a b -> keeps b c -> keeps a c.
Proof. intros [H1 H2] [H3 H4]. split; congruence. Qed.

Lemma grows_refl (self : t) : grows self self.
Proof. apply keeps_grows, keeps_refl. Qed.

Lemma process_player_grows (c : string) (flag : bool) (self : t) r self' ev :
  _process_player api c flag self = (r, self', ev) -> grows self self'.
Proof.
  intros E.
  refine (proj1 (sat_process_player grows grows_refl grows_trans _ _ api c flag _ _ _ _ _ E)).
  - intros s d. apply keeps_grows. split; reflexivity.
  - intros s d. apply keeps_grows. split; reflexivity.
  - intros _ ps s. apply add_teammates_grows.
Qed.

Lemma process_player_keeps (c : string) (self : t) r self' ev :
  _process_player api c false self = (r, self', ev) -> keeps self self'.
Proof.
  intros E.
  refine (proj1 (sat_process_player keeps keeps_refl keeps_trans _ _ api c false _ _ _ _ _ E)).
  - intros s d. split; reflexivity.
  - intros s d. split; reflexivity.
  - discriminate.
Qed.

Lemma process_matches_keeps (p : string) (ids : list string) (queue_type : string)
    (flag : bool) (self : t) r self' ev :
  flag && String.eqb queue_type "swiftplay" = false ->
  _process_matches api p ids queue_type flag self = (r, self', ev) -> keeps self self'.
Proof.
  intros Hoff E. unfold _process_matches in E.
  refine (proj1 (sat_process_matches_loop keeps keeps_refl keeps_trans _ _ api
                   p ids queue_type flag [] _ _ _ _ _ E)).
  - intros s d. split; reflexivity.
  - intros s d. split; reflexivity.
  - rewrite Hoff. discriminate.
Qed.

(** One round of the loop of [bfs]. *)
Lemma bfs_while_step (fuel : nat) (locals : frame) (self : t) (c : string)
    (rest : list string) :
  queue self = c :: rest ->
  bfs_while api (S fuel) locals self =
  match try_except (_process_player api c (gate locals rest)) (requeue c)
                   (checkpoint rest self) with
  | (Ok _, self2, ev_proc) =>
      let '(r, locals', self', ev_rest) :=
        bfs_while api fuel (next_locals locals c rest) self2 in
      (r, locals', self', step_prefix locals c rest ++ ev_proc ++ ev_rest)
  | (Raise e, self2, ev_proc) =>
      (Raise e, next_locals locals c rest, self2, step_prefix locals c rest ++ ev_proc)
  | (OutOfFuel, self2, ev_proc) =>
      (OutOfFuel, next_locals locals c rest, self2, step_prefix locals c rest ++ ev_proc)
  end.
Proof.
  intros Hq. simpl. rewrite Hq. reflexivity.
Qed.

(** What the handler of [except Exception] makes of the outcome of
    [_process_player]. *)
Lemma try_requeue (c : string) (flag : bool) (self : t) r self2 ev :
  _process_player api c flag self = (r, self2, ev) ->
  try_except (_process_player api c flag) (requeue c) self =
  match r with
  | Raise (Exception msg) =>
      (Raise (Exception msg), requeued c self2,
       ev ++ [Log ERROR ("Error processing player " ++ c ++ ": " ++ msg);
              Appendleft c; SaveQueueState (c :: queue self2)])
  | _ => (r, self2, ev)
  end.
Proof.
  intros E. unfold try_except. rewrite E. destruct r as [a|[msg|]|]; reflexivity.
Qed.








Lemma gate_spec (locals : frame) (rest : list string) :
  gate locals rest = add_to_queue locals && (length rest <=? 1000)%nat.
Proof.
  unfold gate. destruct (1000 <? length rest)%nat eqn:E.
  - apply Nat.ltb_lt in E.
    replace (length rest <=? 1000)%nat with false
      by (symmetry; apply Nat.leb_gt; lia).
    rewrite andb_false_r. reflexivity.
  - apply Nat.ltb_ge in E.
    replace (length rest <=? 1000)%nat with true
      by (symmetry; apply Nat.leb_le; lia).
    rewrite andb_true_r. reflexivity.
Qed.

(** One round of the loop, seen from outside. *)
Lemma bfs_while_round (locals : frame) (self : t) (c : string) (rest : list string)
    r locals' self' ev :
  queue self = c :: rest ->
  bfs_while api 1 locals self = (r, locals', self', ev) ->
  locals' = next_locals locals c rest /\
  exists r2 s2 ev2,
    _process_player api c (gate locals rest) (checkpoint rest self) = (r2, s2, ev2) /\
    (self' = s2 \/ self' = requeued c s2).
Proof.
  intros Hq. rewrite (bfs_while_step 0 locals self c rest Hq).
  destruct (_process_player api c (gate locals rest) (checkpoint rest self))
    as [[r2 s2] ev2] eqn:E.
  rewrite (try_requeue c _ _ _ _ _ E).
  destruct r2 as [a|[msg|]|].
  - simpl. destruct (queue s2); intros [= <- <- <- <-]; split; eauto 6.
  - intros [= <- <- <- <-]. split; eauto 6.
  - intros [= <- <- <- <-]. split; eauto 6.
  - intros [= <- <- <- <-]. split; eauto 6.
Qed.

Lemma bfs_while_suspended (fuel : nat) :
  forall locals self r locals' self' ev,
    add_to_queue locals = false ->
    bfs_while api fuel locals self = (r, locals', self', ev) ->
    add_to_queue locals' = false /\
    visited_puuids self' = visited_puuids self /\
    exists k, queue self' = drop k (queue self).
Proof.
  induction fuel as [|fuel IH]; intros locals self r locals' self' ev Hoff.
  - simpl. destruct (queue self) eqn:Hq; intros [= <- <- <- <-];
      (split; [exact Hoff|]; split; [reflexivity|]; exists 0%nat;
       rewrite Hq; reflexivity).
  - destruct (queue self) as [|c rest] eqn:Hq.
    + simpl. rewrite Hq. intros [= <- <- <- <-].
      split; [exact Hoff|]. split; [reflexivity|]. exists 0%nat. rewrite Hq. reflexivity.
    + rewrite (bfs_while_step fuel locals self c rest Hq).
      assert (Hgate : gate locals rest = false) by (rewrite gate_spec, Hoff; reflexivity).
      destruct (_process_player api c (gate locals rest) (checkpoint rest self))
        as [[r2 s2] ev2] eqn:E.
      rewrite (try_requeue c _ _ _ _ _ E).
      rewrite Hgate in E. destruct (process_player_keeps _ _ _ _ _ E) as [Kq Kv].
      change (queue (checkpoint rest self)) with rest in Kq.
      change (visited_puuids (checkpoint rest self)) with (visited_puuids self) in Kv.
      destruct r2 as [a|[msg|]|].
      * destruct (bfs_while api fuel (next_locals locals c rest) s2)
          as [[[r3 l3] s3] ev3] eqn:W.
        intros [= <- <- <- <-].
        destruct (IH (next_locals locals c rest) _ _ _ _ _ Hgate W)
          as (H1 & H2 & k & H3).
        split; [exact H1|]. split; [congruence|].
        exists (S k). rewrite H3, Kq. reflexivity.
      * intros [= <- <- <- <-]. split; [exact Hgate|]. split; [exact Kv|].
        exists 0%nat. simpl. rewrite Kq. reflexivity.
      * intros [= <- <- <- <-]. split; [exact Hgate|]. split; [exact Kv|].
        exists 1%nat. simpl. rewrite Kq, drop_0. reflexivity.
      * intros [= <- <- <- <-]. split; [exact Hgate|]. split; [exact Kv|].
        exists 1%nat. simpl. rewrite Kq, drop_0. reflexivity.
Qed.

(** C8 (amended): neighbour discovery appends to the queue only ids that
    are not in the visited set, each once, and marks them visited; it
    happens only for swiftplay matches, and only while [add_to_queue] is
    on.  [add_to_queue] is switched off in the first round in which more
    than 1000 ids are left in the queue after the dequeue (so a round that
    starts with 1001 ids still discovers), and once off it stays off until
    the loop is left, however short the queue gets. *)
Theorem discovery_is_gated_after_dequeue :
  (* one round of the loop *)
  (forall locals self c rest r locals' self' ev,
     queue self = c :: rest ->
     bfs_while api 1 locals self = (r, locals', self', ev) ->
     add_to_queue locals' = add_to_queue locals && (length rest <=? 1000)%nat /\
     exists added,
       (queue self' = rest ++ added \/ queue self' = c :: rest ++ added) /\
       visited_puuids self' = visited_puuids self ∪ list_to_set added /\
       NoDup added /\
       Forall (fun p => p ∉ visited_puuids self) added /\
       (add_to_queue locals' = false -> added = [])) /\
  (* only swiftplay matches feed the queue *)
  (forall p ids queue_type flag self r self' ev,
     _process_matches api p ids queue_type flag self = (r, self', ev) ->
     flag = false \/ queue_type <> "swiftplay" ->
     queue self' = queue self /\ visited_puuids self' = visited_puuids self) /\
  (* once off, off until the loop is left *)
  (forall fuel locals self r locals' self' ev,
     add_to_queue locals = false ->
     bfs_while api fuel locals self = (r, locals', self', ev) ->
     add_to_queue locals' = false /\
     visited_puuids self' = visited_puuids self /\
     exists k, queue self' = drop k (queue self)).
Proof.
  split; [|split].
  - intros locals self c rest r locals' self' ev Hq W.
    destruct (bfs_while_round _ _ _ _ _ _ _ _ Hq W)
      as (-> & r2 & s2 & ev2 & E & Hself).
    cbn [next_locals add_to_queue]. split; [apply gate_spec|].
    assert (Hq' : queue self' = queue s2 \/ queue self' = c :: queue s2)
      by (destruct Hself as [-> | ->]; auto).
    assert (Hv' : visited_puuids self' = visited_puuids s2)
      by (destruct Hself as [-> | ->]; reflexivity).
    destruct (gate locals rest) eqn:G.
    + destruct (process_player_grows _ _ _ _ _ _ E) as (added & Gq & Gv & Gn & Gf).
      change (queue (checkpoint rest self)) with rest in Gq.
      change (visited_puuids (checkpoint rest self)) with (visited_puuids self) in Gv, Gf.
      exists added. rewrite Hv', <- Gq. repeat split; auto. discriminate.
    + destruct (process_player_keeps _ _ _ _ _ E) as [Kq Kv].
      change (queue (checkpoint rest self)) with rest in Kq.
      change (visited_puuids (checkpoint rest self)) with (visited_puuids self) in Kv.
      exists []. rewrite app_nil_r, Hv', Kv, <- Kq. repeat split; auto.
      * rewrite list_to_set_nil. rewrite (right_id_L ∅ (∪)). reflexivity.
      * constructor.
  - intros p ids queue_type flag self r self' ev E Hoff.
    apply (process_matches_keeps p ids queue_type flag self r self' ev); [|exact E].
    destruct Hoff as [-> | Hne]; [reflexivity|].
    apply String.eqb_neq in Hne. rewrite Hne. apply andb_false_r.
  - intros fuel. apply bfs_while_suspended.
Qed.

Lemma bfs_while_tracked (fuel : nat) :
  forall locals self r locals' self' ev,
    tracked locals self ->
    bfs_while api fuel locals self = (r, locals', self', ev) ->
    tracked locals' self'.
Proof.
  induction fuel as [|fuel IH]; intros locals self r locals' self' ev Htr.
  - simpl. destruct (queue self); intros [= <- <- <- <-]; exact Htr.
  - destruct (queue self) as [|c rest] eqn:Hq.
    + simpl. rewrite Hq. intros [= <- <- <- <-]. exact Htr.
    + rewrite (bfs_while_step fuel locals self c rest Hq).
      destruct (_process_player api c (gate locals rest) (checkpoint rest self))
        as [[r2 s2] ev2] eqn:E.
      rewrite (try_requeue c _ _ _ _ _ E).
      destruct (process_player_grows _ _ _ _ _ _ E) as (added & Gq & Gv & _ & _).
      change (queue (checkpoint rest self)) with rest in Gq.
      change (visited_puuids (checkpoint rest self)) with (visited_puuids self) in Gv.
      destruct Htr as [Hqueue _]. rewrite Hq in Hqueue.
      assert (Hc : c ∈ visited_puuids s2).
      { rewrite Gv. apply elem_of_union_l, Hqueue. left. }
      assert (Hs2 : forall p, p ∈ queue s2 -> p ∈ visited_puuids s2).
      { intros p. rewrite Gq, Gv, elem_of_app, elem_of_union, elem_of_list_to_set.
        intros [Hp | Hp]; [left; apply Hqueue; right; exact Hp | right; exact Hp]. }
      assert (Htr2 : tracked (next_locals locals c rest) s2).
      { split; [exact Hs2|]. intros c' [= <-]. exact Hc. }
      assert (Htr3 : tracked (next_locals locals c rest) (requeued c s2)).
      { split; [|intros c' [= <-]; exact Hc].
        intros p. change (queue (requeued c s2)) with (c :: queue s2).
        change (visited_puuids (requeued c s2)) with (visited_puuids s2).
        rewrite elem_of_cons. intros [-> | Hp]; [exact Hc | exact (Hs2 p Hp)]. }
      destruct r2 as [a|[msg|]|].
      * destruct (bfs_while api fuel (next_locals locals c rest) s2)
          as [[[r3 l3] s3] ev3] eqn:W.
        intros [= <- <- <- <-]. exact (IH _ _ _ _ _ _ Htr2 W).
      * intros [= <- <- <- <-]. exact Htr3.
      * intros [= <- <- <- <-]. exact Htr2.
      * intros [= <- <- <- <-]. exact Htr2.
Qed.

(** A crawl started from a seed keeps every queued id in the visited set. *)
Lemma seeded_bfs_tracks_queue (p : string) (fuel : nat) (self : t) :
  forall q, q ∈ queue (snd (fst (bfs api (Some p) fuel self))) ->
            q ∈ visited_puuids (snd (fst (bfs api (Some p) fuel self))).
Proof.
  unfold bfs, bind, modify. cbn [fst snd].
  set (self0 := set_visited_puuids _ _).
  set (locals0 := {| iterations := 0; add_to_queue := true; current_puuid := None |}).
  assert (H0 : tracked locals0 self0).
  { split; [|discriminate]. intros q. subst self0. simpl.
    rewrite list_elem_of_singleton. intros ->. apply elem_of_union_l, elem_of_singleton.
    reflexivity. }
  unfold bfs_try.
  destruct (bfs_while api fuel locals0 self0) as [[[r1 l1] s1] ev1] eqn:W.
  destruct (bfs_while_tracked _ _ _ _ _ _ _ H0 W) as [Hq Hcur].
  destruct r1 as [a|[msg|]|]; cbn [fst snd]; try exact Hq.
  unfold interrupted. destruct (current_puuid l1) as [c|] eqn:Ec; [|exact Hq].
  destruct (String.eqb c ""); cbn; [exact Hq|].
  intros q. rewrite elem_of_cons. intros [-> | Hin]; [exact (Hcur _ eq_refl) | exact (Hq _ Hin)].
Qed.

End WithRemote.

Import Worlds.


Lemma discovery_is_gated_after_dequeue_witness :
  add_to_queue (snd (fst (fst round_m1))) = true && (length ["B"] <=? 1000)%nat /\
  exists added,
    (queue (snd (fst round_m1)) = ["B"] ++ added \/
     queue (snd (fst round_m1)) = "A" :: ["B"] ++ added) /\
    visited_puuids (snd (fst round_m1))
    = visited_puuids two_queued ∪ list_to_set added /\
    NoDup added /\
    Forall (fun p => p ∉ visited_puuids two_queued) added /\
    (add_to_queue (snd (fst (fst round_m1))) = false -> added = []).
Proof.
  destruct round_m1 as [[[r l] s] ev] eqn:E. cbn [fst snd].
  exact (proj1 (discovery_is_gated_after_dequeue api_m1)
           fresh_locals two_queued "A" ["B"] r l s ev eq_refl E).
Defined.

(** A round that starts with 1001 queued ids, 1000 of them left after the
    dequeue, still enqueues the unseen participants B and C and leaves
    [add_to_queue] on. *)
Lemma discovery_with_1001_queued :
  length (queue full_backlog) = 1001%nat /\
  queue (snd (fst round_full)) = backlog ++ ["B"; "C"] /\
  add_to_queue (snd (fst (fst round_full))) = true.
Proof. vm_compute. repeat split; reflexivity. Qed.

(** C7 (the code at the failing input): resuming from the checkpoint
    [["A", "B"]] with no player summarized yet, [bfs] is entered with A and
    B queued and an empty visited set, so the visited set is not a superset
    of the queued ids; the first round then enqueues A and B once more, next
    to the new id C. *)
Theorem restore_forgets_queued_ids :
  fst (fst restored) = Ok true /\
  queue (snd (fst restored)) = ["A"; "B"] /\
  visited_puuids (snd (fst restored)) = ∅ /\
  queue (snd (fst resumed_round)) = ["B"; "A"; "B"; "C"].
Proof. vm_compute. repeat split; reflexivity. Qed.

End SchedulerFacts.

(** ** The entry point *)

Module MainFacts.
Import LeagueBFS Main Worlds.




End MainFacts.

(** ** More on the record store *)

Module StoreFacts.
Import DataManager StoreVocabulary.

(** X1: start-up keeps what is on disk: a file that is missing is created
    without rows, a file that is there keeps its rows, the checkpoint is
    not touched, and running [_initialize_files] again on the result
    changes nothing. *)
Theorem initialize_files_keeps_rows (disk : DataManager.t) :
  swiftplay_player_match_file (_initialize_files disk)
  = Some (rows_of (swiftplay_player_match_file disk)) /\
  ranked_player_match_file (_initialize_files disk)
  = Some (rows_of (ranked_player_match_file disk)) /\
  swiftplay_matches_file (_initialize_files disk)
  = Some (rows_of (swiftplay_matches_file disk)) /\
  ranked_matches_file (_initialize_files disk)
  = Some (rows_of (ranked_matches_file disk)) /\
  players_file (_initialize_files disk) = Some (rows_of (players_file disk)) /\
  queue_state_file (_initialize_files disk) = queue_state_file disk /\
  _initialize_files (_initialize_files disk) = _initialize_files disk.
Proof.
  destruct disk as [a b c d e q cache].
  destruct a, b, c, d, e; repeat split; reflexivity.
Qed.



Lemma match_exists_true_iff (match_id queue_type : string) (self : t) :
  fst (match_exists match_id queue_type self) = true <->
  match_id ∈ match_id_cache self \/
  match_id ∈ match_ids_of (matches_file queue_type self).
Proof.
  unfold match_exists.
  destruct (bool_decide (match_id ∈ match_id_cache self)) eqn:Ec.
  - apply bool_decide_eq_true in Ec. simpl. tauto.
  - apply bool_decide_eq_false in Ec.
    destruct (matches_file queue_type self) as [df|] eqn:Ef; simpl.
    + destruct (bool_decide (match_id ∈ mi_matchId <$> df)) eqn:Ed; simpl.
      * apply bool_decide_eq_true in Ed. tauto.
      * apply bool_decide_eq_false in Ed.
        split; [discriminate | intros [H|H]; contradiction].
    + split; [discriminate|]. intros [H|H]; [contradiction|].
      apply elem_of_nil in H. contradiction.
Qed.

Lemma match_exists_same_files (match_id queue_type : string) (self : t) :
  same_files (snd (match_exists match_id queue_type self)) self.
Proof.
  unfold match_exists.
  destruct (bool_decide (match_id ∈ match_id_cache self)); [repeat split|].
  destruct (matches_file queue_type self) as [df|]; [|repeat split].
  destruct (bool_decide (match_id ∈ mi_matchId <$> df)); repeat split.
Qed.











Lemma save_player_matches_untouched (player_matches : list player_match)
    (queue_type : string) (self s : t) :
  save_player_matches player_matches queue_type self = Ok s ->
  swiftplay_matches_file s = swiftplay_matches_file self /\
  ranked_matches_file s = ranked_matches_file self /\
  players_file s = players_file self /\
  queue_state_file s = queue_state_file self /\
  match_id_cache s = match_id_cache self /\
  forall other, is_swiftplay other <> is_swiftplay queue_type ->
    player_match_file other s = player_match_file other self.
Proof.
  unfold save_player_matches.
  destruct (player_match_file queue_type self) as [df|]; [|discriminate].
  destruct (List.filter _ player_matches) as [|x l].
  - intros [= <-]. repeat split; reflexivity.
  - intros [= <-]. unfold set_player_match_file, player_match_file.
    destruct (is_swiftplay queue_type) eqn:E; simpl; repeat split; try reflexivity;
      intros other Hne; destruct (is_swiftplay other); congruence.
Qed.

(** X6: [save_player_matches] raises exactly when the partition file of the
    category is missing, hence never on a store that went through
    [_initialize_files]; when it returns, the matches files, Players.csv,
    the checkpoint, the cache and the partition of the other category are
    as before. *)
Theorem save_player_matches_frame (player_matches : list player_match)
    (queue_type : string) (self : t) :
  ((exists e, save_player_matches player_matches queue_type self = Raise e) <->
   player_match_file queue_type self = None) /\
  (forall disk, exists s,
     save_player_matches player_matches queue_type (_initialize_files disk) = Ok s) /\
  (forall s, save_player_matches player_matches queue_type self = Ok s ->
     swiftplay_matches_file s = swiftplay_matches_file self /\
     ranked_matches_file s = ranked_matches_file self /\
     players_file s = players_file self /\
     queue_state_file s = queue_state_file self /\
     match_id_cache s = match_id_cache self /\
     forall other, is_swiftplay other <> is_swiftplay queue_type ->
       player_match_file other s = player_match_file other self).
Proof.
  split; [|split].
  - unfold save_player_matches. destruct (player_match_file queue_type self) as [df|].
    + split; [|discriminate]. intros [e He].
      destruct (List.filter _ player_matches); discriminate.
    + split; [reflexivity|]. intros _. eexists. reflexivity.
  - intros disk.
    assert (Hf : exists df, player_match_file queue_type (_initialize_files disk) = Some df).
    { unfold player_match_file. destruct disk as [a b c d e q cache].
      destruct (is_swiftplay queue_type); [destruct a | destruct b]; simpl; eauto. }
    destruct Hf as [df Hf].
    destruct (DataManagerFacts.save_player_matches_rows player_matches df queue_type
                _ Hf) as (s & Hs & _).
    exists s. exact Hs.
  - apply save_player_matches_untouched.
Qed.


End StoreFacts.

(** ** More on the request loop *)

Module RequestBudgetFacts.
Import Request RequestVocabulary.

Section Facts.
Context {J : Type}.
Variable server : nat -> http_outcome J.
Variable allow_404 : bool.

Lemma requests_made_app (tr tr' : list event) :
  requests_made (tr ++ tr') = (requests_made tr + requests_made tr')%nat.
Proof. unfold requests_made. rewrite List.filter_app, length_app. reflexivity. Qed.

Lemma requests_made_rate_limited (h : retry_after_header) :
  requests_made (rate_limited h) = 0%nat.
Proof.
  destruct h as [|s|]; simpl; [reflexivity| |reflexivity].
  destruct (s <? 0)%Z; reflexivity.
Qed.

(** What the loop has done when it is left, entered with [n] requests made
    and [retry_count = n]. *)
Lemma attempts_budget (fuel : nat) :
  forall (retry_count_ : Z) (n : nat) (tr : list event),
    retry_count_ = Z.of_nat n ->
    (retry_count_ <= max_retries)%Z ->
    (max_retries - retry_count_ <= Z.of_nat fuel)%Z ->
    requests_made tr = n ->
    (retry_count_ = max_retries -> last tr = Some (Sleep 8)) ->
    let o := attempts server allow_404 fuel retry_count_ n tr in
    match result o with
    | Ok r =>
        (retry_count o < max_retries)%Z /\
        requests_made (trace o) = S (Z.to_nat (retry_count o)) /\
        last (trace o) = Some (Get (Z.to_nat (retry_count o))) /\
        returns allow_404 (server (Z.to_nat (retry_count o))) r
    | Raise e =>
        e = Exception "Failed to get response after 3 retries" /\
        retry_count o = max_retries /\
        requests_made (trace o) = 3%nat /\
        last (trace o) = Some (Sleep 8) /\
        forall k r, (n <= k < 3)%nat -> ~ returns allow_404 (server k) r
    | OutOfFuel => False
    end.
Proof.
  induction fuel as [|fuel IH]; intros rc n tr Hn Hle Hfuel Hreq Hlast; simpl.
  - destruct (rc <? max_retries)%Z eqn:E; [apply Z.ltb_lt in E; lia|].
    apply Z.ltb_ge in E. simpl. assert (rc = max_retries) by lia.
    unfold max_retries in *. repeat split; auto; try (intros; lia).
  - destruct (rc <? max_retries)%Z eqn:E.
    2:{ apply Z.ltb_ge in E. simpl. assert (rc = max_retries) by lia.
        unfold max_retries in *. repeat split; auto; try (intros; lia). }
    apply Z.ltb_lt in E.
    assert (Hk : Z.to_nat rc = n) by lia.
    assert (Hnext : forall slept,
      requests_made slept = 0%nat ->
      (forall r, ~ returns allow_404 (server n) r) ->
      let o := attempts server allow_404 fuel (rc + 1) (S n)
                 ((tr ++ [Get n]) ++ slept ++ [Sleep (2 ^ (rc + 1))]) in
      match result o with
      | Ok r =>
          (retry_count o < max_retries)%Z /\
          requests_made (trace o) = S (Z.to_nat (retry_count o)) /\
          last (trace o) = Some (Get (Z.to_nat (retry_count o))) /\
          returns allow_404 (server (Z.to_nat (retry_count o))) r
      | Raise e =>
          e = Exception "Failed to get response after 3 retries" /\
          retry_count o = max_retries /\
          requests_made (trace o) = 3%nat /\
          last (trace o) = Some (Sleep 8) /\
          forall k r, (n <= k < 3)%nat -> ~ returns allow_404 (server k) r
      | OutOfFuel => False
      end).
    { intros slept Hs Hno o. subst o.
      specialize (IH (rc + 1)%Z (S n) ((tr ++ [Get n]) ++ slept ++ [Sleep (2 ^ (rc + 1))])).
      cbv zeta in IH.
      assert (H1 : (rc + 1)%Z = Z.of_nat (S n)) by lia.
      assert (H2 : (rc + 1 <= max_retries)%Z) by lia.
      assert (H3 : (max_retries - (rc + 1) <= Z.of_nat fuel)%Z) by lia.
      assert (H4 : requests_made ((tr ++ [Get n]) ++ slept ++ [Sleep (2 ^ (rc + 1))]) = S n).
      { rewrite !requests_made_app, Hs, Hreq.
        change (requests_made [Get n]) with 1%nat.
        change (requests_made [Sleep (2 ^ (rc + 1))]) with 0%nat. lia. }
      assert (H5 : (rc + 1)%Z = max_retries ->
                   last ((tr ++ [Get n]) ++ slept ++ [Sleep (2 ^ (rc + 1))]) = Some (Sleep 8)).
      { intros Hm. rewrite !app_assoc, last_snoc. rewrite Hm. reflexivity. }
      specialize (IH H1 H2 H3 H4 H5).
      destruct (result (attempts server allow_404 fuel (rc + 1) (S n)
                  ((tr ++ [Get n]) ++ slept ++ [Sleep (2 ^ (rc + 1))]))) as [r|e|];
        [exact IH | | exact IH].
      destruct IH as (He & Hrc & Hreqs & Hl & Hall).
      repeat split; auto.
      intros k r Hkr. destruct (decide (k = n)) as [->|Hne]; [apply Hno|].
      apply Hall. lia. }
    assert (Hret : forall r,
      returns allow_404 (server n) r ->
      (rc < max_retries)%Z /\
      requests_made (tr ++ [Get n]) = S (Z.to_nat rc) /\
      last (tr ++ [Get n]) = Some (Get (Z.to_nat rc)) /\
      returns allow_404 (server (Z.to_nat rc)) r).
    { intros r Hr. rewrite Hk. repeat split; auto.
      - rewrite requests_made_app, Hreq. change (requests_made [Get n]) with 1%nat. lia.
      - apply last_snoc. }
    destruct (server n) as [status_code retry_after json|msg] eqn:Es; simpl.
    + destruct (status_code =? 200)%Z eqn:E200.
      * apply Z.eqb_eq in E200. destruct json as [j|]; simpl.
        -- apply Hret. left. repeat split; auto; discriminate.
        -- apply (Hnext []); [reflexivity|].
           intros r [(_ & Hj & Hr) | (H404 & _)]; [congruence | lia].
      * apply Z.eqb_neq in E200.
        destruct (status_code =? 404)%Z eqn:E404; simpl.
        -- apply Z.eqb_eq in E404. destruct allow_404 eqn:Ea; simpl.
           ++ apply Hret. right. auto.
           ++ destruct (status_code =? 429)%Z eqn:E429; [apply Z.eqb_eq in E429; lia|].
              apply (Hnext []); [reflexivity|].
              intros r [(H200 & _) | (_ & Ha & _)]; [lia | discriminate].
        -- apply Z.eqb_neq in E404.
           destruct (status_code =? 429)%Z eqn:E429.
           ++ apply (Hnext (rate_limited retry_after)); [apply requests_made_rate_limited|].
              intros r [(H200 & _) | (H404 & _)]; lia.
           ++ apply (Hnext []); [reflexivity|].
              intros r [(H200 & _) | (H404 & _)]; lia.
    + apply (Hnext []); [reflexivity|]. intros r [].
Qed.

(** X7: [_make_request] makes at most three requests. It returns the payload
    of the request it made last (or [None] for an allowed 404) without
    sleeping after it; it raises only after exactly three requests none of
    which could be returned, and only after the last backoff of 8 seconds. *)
Theorem make_request_budget :
  let o := _make_request server allow_404 in
  (0 <= retry_count o <= 3)%Z /\
  (requests_made (trace o) <= 3)%nat /\
  match result o with
  | Ok r =>
      requests_made (trace o) = S (Z.to_nat (retry_count o)) /\
      last (trace o) = Some (Get (Z.to_nat (retry_count o))) /\
      returns allow_404 (server (Z.to_nat (retry_count o))) r
  | Raise e =>
      e = Exception "Failed to get response after 3 retries" /\
      retry_count o = 3%Z /\
      requests_made (trace o) = 3%nat /\
      last (trace o) = Some (Sleep 8) /\
      forall k r, (k < 3)%nat -> ~ returns allow_404 (server k) r
  | OutOfFuel => False
  end.
Proof.
  intros o.
  pose proof (attempts_budget (Z.to_nat max_retries) 0%Z 0%nat [] eq_refl) as H.
  cbv zeta in H. fold (_make_request server allow_404) in H. fold o in H.
  assert (H1 : (0 <= max_retries)%Z) by (unfold max_retries; lia).
  assert (H2 : (max_retries - 0 <= Z.of_nat (Z.to_nat max_retries))%Z)
    by (unfold max_retries; lia).
  assert (H3 : 0%Z = max_retries -> last (@nil event) = Some (Sleep 8))
    by (unfold max_retries; lia).
  specialize (H H1 H2 eq_refl H3).
  assert (Hpos : (0 <= retry_count o)%Z).
  { clear. subst o. unfold _make_request.
    assert (G : forall fuel rc n tr, (0 <= rc)%Z ->
                (0 <= retry_count (attempts server allow_404 fuel rc n tr))%Z).
    { induction fuel as [|fuel IH]; intros rc n tr Hrc; simpl.
      - destruct (rc <? max_retries)%Z; exact Hrc.
      - destruct (rc <? max_retries)%Z; [|exact Hrc].
        destruct (server n) as [sc ra js|msg]; simpl.
        + destruct (sc =? 200)%Z; [destruct js; simpl; [exact Hrc | apply IH; lia]|].
          destruct ((sc =? 404)%Z && allow_404); simpl; [exact Hrc|].
          destruct (sc =? 429)%Z; apply IH; lia.
        + apply IH; lia. }
    apply G. lia. }
  destruct (result o) as [r|e|]; [| |contradiction].
  - destruct H as (Hlt & Hreq & Hl & Hr). unfold max_retries in Hlt.
    split; [lia|]. split; [rewrite Hreq; lia|]. auto.
  - destruct H as (He & Hrc & Hreq & Hl & Hall). unfold max_retries in Hrc.
    split; [lia|]. split; [lia|]. repeat split; auto.
    intros k r Hk. apply Hall. lia.
Qed.

(** X8: every failure that is not a 429 -- a status other than 200, a 404 that
    is not allowed, a body that is not JSON, an error of the connection -- is
    retried after 2, then 4 seconds; after the third one and 8 more seconds
    the terminal error is raised. *)
Theorem make_request_retries_every_failure :
  plain_failure allow_404 (server 0%nat) ->
  plain_failure allow_404 (server 1%nat) ->
  plain_failure allow_404 (server 2%nat) ->
  _make_request server allow_404 =
  {| result := Raise (Exception "Failed to get response after 3 retries");
     retry_count := 3;
     trace := [Get 0; Sleep 2; Get 1; Sleep 4; Get 2; Sleep 8] |}.
Proof.
  assert (Hstep : forall fuel rc n tr,
    (rc < max_retries)%Z -> plain_failure allow_404 (server n) ->
    attempts server allow_404 (S fuel) rc n tr
    = attempts server allow_404 fuel (rc + 1) (S n)
        ((tr ++ [Get n]) ++ [Sleep (2 ^ (rc + 1))])).
  { intros fuel rc n tr Hlt Hf. simpl. apply Z.ltb_lt in Hlt. rewrite Hlt.
    destruct (server n) as [sc ra js|msg]; simpl; [|reflexivity].
    destruct Hf as [(-> & ->) | [(-> & ->) | (H2 & H4 & H9)]]; simpl; try reflexivity.
    apply Z.eqb_neq in H2, H4, H9. rewrite H2, H4, H9. reflexivity. }
  intros H0 H1 H2. unfold _make_request. change (Z.to_nat max_retries) with 3%nat.
  rewrite (Hstep 2%nat 0%Z 0%nat [] eq_refl H0).
  rewrite (Hstep 1%nat (0 + 1)%Z 1%nat _ eq_refl H1).
  rewrite (Hstep 0%nat (0 + 1 + 1)%Z 2%nat _ eq_refl H2).
  reflexivity.
Qed.

(** X9: a 404 on an endpoint called with [allow_404] is answered by [None] at
    once: one request, no sleep. *)
Theorem make_request_allowed_404 (h : retry_after_header) (json : option J) :
  allow_404 = true ->
  server 0%nat = Response 404 h json ->
  _make_request server allow_404 =
  {| result := Ok None; retry_count := 0; trace := [Get 0] |}.
Proof.
  intros Ha Hs. unfold _make_request. change (Z.to_nat max_retries) with 3%nat.
  simpl. rewrite Hs, Ha. reflexivity.
Qed.

End Facts.

Lemma make_request_retries_every_failure_witness :
  _make_request always_503 true =
  {| result := Raise (Exception "Failed to get response after 3 retries");
     retry_count := 3;
     trace := [Get 0; Sleep 2; Get 1; Sleep 4; Get 2; Sleep 8] |}.
Proof.
  apply (make_request_retries_every_failure always_503 true);
    right; right; repeat split; discriminate.
Defined.

Lemma make_request_allowed_404_witness :
  _make_request always_404 true =
  {| result := Ok None; retry_count := 0; trace := [Get 0] |}.
Proof.
  exact (make_request_allowed_404 always_404 true NoHeader None eq_refl eq_refl).
Defined.

End RequestBudgetFacts.

(** ** More on the rate limiter *)

Module RateLimitEdgeFacts.
Import RateLimit RateLimitVocabulary RateLimitFacts.
Local Open Scope Q_scope.

Lemma wait_for_none (limit : nat) (window current_time : Q) (times : list Q) :
  wait_for limit window current_time times = None <-> limit = 0%nat /\ times = [].
Proof.
  unfold wait_for. destruct (limit <=? length times)%nat eqn:E.
  - destruct times as [|oldest rest]; simpl in *.
    + apply Nat.leb_le in E. split; [intros _; split; [lia|reflexivity] | reflexivity].
    + split; [discriminate | intros [_ H]; discriminate].
  - apply Nat.leb_gt in E. split; [discriminate|]. intros [-> ->]. simpl in E. lia.
Qed.

(** X10: [wait_if_needed] raises [IndexError] exactly when a limit is 0 and
    its window is empty after the purge (so at once on a new limiter with a
    zero limit); a limiter with two positive limits answers every sequence of
    calls. *)
Theorem wait_if_needed_index_error (self : t) (current_time lag : Q) :
  (wait_if_needed self current_time lag = None <->
   (requests_per_second self = 0%nat /\
    popleft_old 1 current_time (request_times_short self) = []) \/
   (requests_per_2min self = 0%nat /\
    popleft_old 120 current_time (request_times_long self) = [])) /\
  (forall n, wait_if_needed (init 0 n) current_time lag = None) /\
  (forall n, wait_if_needed (init n 0) current_time lag = None) /\
  ((0 < requests_per_second self)%nat -> (0 < requests_per_2min self)%nat ->
   forall calls last, exists r, run_calls self last calls = Some r).
Proof.
  assert (Hiff : forall s t0 l,
    wait_if_needed s t0 l = None <->
    (requests_per_second s = 0%nat /\ popleft_old 1 t0 (request_times_short s) = []) \/
    (requests_per_2min s = 0%nat /\ popleft_old 120 t0 (request_times_long s) = [])).
  { intros s t0 l. unfold wait_if_needed.
    destruct (wait_for (requests_per_second s) 1 t0 _) as [w1|] eqn:E1.
    - destruct (wait_for (requests_per_2min s) 120 t0 _) as [w2|] eqn:E2.
      + split; [discriminate|]. intros [H | H].
        * apply (wait_for_none _ 1 t0) in H. congruence.
        * apply (wait_for_none _ 120 t0) in H. congruence.
      + apply wait_for_none in E2. tauto.
    - apply wait_for_none in E1. tauto. }
  split; [apply Hiff|]. split; [|split].
  - intros n. apply Hiff. left. split; reflexivity.
  - intros n. apply Hiff. right. split; reflexivity.
  - intros Hs Hl calls. revert self Hs Hl.
    induction calls as [|[gap lag'] rest IH]; intros s Hs Hl last; simpl.
    + eexists. reflexivity.
    + destruct (wait_if_needed s (last + gap) lag') as [g|] eqn:E.
      * assert (Hlim : requests_per_second (limiter g) = requests_per_second s /\
                       requests_per_2min (limiter g) = requests_per_2min s).
        { unfold wait_if_needed in E.
          destruct (wait_for (requests_per_second s) 1 _ _); [|discriminate].
          destruct (wait_for (requests_per_2min s) 120 _ _); [|discriminate].
          injection E as <-. split; reflexivity. }
        destruct Hlim as [H1 H2]. apply IH; [rewrite H1 | rewrite H2]; assumption.
      * apply Hiff in E. lia.
Qed.

Lemma popleft_old_suffix (window current_time : Q) (times : list Q) :
  exists dropped, times = dropped ++ popleft_old window current_time times.
Proof.
  induction times as [|ts rest IH]; simpl.
  - exists []. reflexivity.
  - destruct (Qgtb (current_time - ts) window).
    + destruct IH as [dropped IH]. exists (ts :: dropped). simpl. f_equal. exact IH.
    + exists []. reflexivity.
Qed.

Lemma wait_for_bounds (limit : nat) (window current_time w : Q) (times : list Q) :
  wait_for limit window current_time times = Some w ->
  0 <= w /\
  ((length times < limit)%nat -> w = 0) /\
  (Forall (fun ts => ts <= current_time) times -> 0 <= window -> w <= window).
Proof.
  unfold wait_for. destruct (limit <=? length times)%nat eqn:E.
  - apply Nat.leb_le in E. destruct times as [|oldest rest]; [discriminate|].
    intros [= <-].
    destruct (Qgtb (window - (current_time - oldest)) 0) eqn:G.
    + apply Qgtb_true in G. split; [lra|]. split; [intros H; lia|].
      intros Hall Hw. inversion Hall; subst. lra.
    + split; [lra|]. split; [intros H; lia|]. intros _ Hw. exact Hw.
  - intros [= <-]. split; [lra|]. split; [reflexivity|]. intros _ Hw. exact Hw.
Qed.

(** X11: [wait_if_needed] never asks for a negative sleep, asks for none while
    the purged window is below its limit, and, as long as no recorded
    timestamp is ahead of the clock, asks for at most 1 second for the short
    window and 120 seconds for the long one. *)
Theorem wait_if_needed_sleeps (self : t) (current_time lag : Q) (g : granted) :
  not_ahead current_time self ->
  wait_if_needed self current_time lag = Some g ->
  0 <= slept_short g <= 1 /\ 0 <= slept_long g <= 120 /\
  ((length (popleft_old 1 current_time (request_times_short self))
    < requests_per_second self)%nat -> slept_short g = 0) /\
  ((length (popleft_old 120 current_time (request_times_long self))
    < requests_per_2min self)%nat -> slept_long g = 0) /\
  recorded g == current_time + slept_short g + slept_long g + lag.
Proof.
  intros [Hs Hl]. unfold wait_if_needed.
  destruct (wait_for (requests_per_second self) 1 _ _) as [w1|] eqn:E1; [|discriminate].
  destruct (wait_for (requests_per_2min self) 120 _ _) as [w2|] eqn:E2; [|discriminate].
  intros [= <-]. simpl.
  destruct (wait_for_bounds _ _ _ _ _ E1) as (P1 & Z1 & B1).
  destruct (wait_for_bounds _ _ _ _ _ E2) as (P2 & Z2 & B2).
  destruct (popleft_old_suffix 1 current_time (request_times_short self)) as [d1 D1].
  destruct (popleft_old_suffix 120 current_time (request_times_long self)) as [d2 D2].
  rewrite D1 in Hs. rewrite D2 in Hl.
  apply Forall_app in Hs, Hl.
  repeat split; auto; try reflexivity.
  - apply B1; [tauto | lra].
  - apply B2; [tauto | lra].
Qed.

Lemma popleft_old_mirrored (current_time : Q) (older short : list Q) :
  exists older',
    popleft_old 120 current_time (older ++ short)
    = older' ++ popleft_old 1 current_time short.
Proof.
  induction older as [|ts rest IH]; simpl.
  - induction short as [|ts rest IH]; simpl.
    + exists []. reflexivity.
    + destruct (Qgtb (current_time - ts) 120) eqn:G.
      * assert (G1 : Qgtb (current_time - ts) 1 = true).
        { apply Qgtb_true. apply Qgtb_true in G. lra. }
        rewrite G1. exact IH.
      * destruct (popleft_old_suffix 1 current_time (ts :: rest)) as [d D].
        exists d. simpl in D. exact D.
  - destruct (Qgtb (current_time - ts) 120); [exact IH|].
    destruct (popleft_old_suffix 1 current_time short) as [d D].
    exists (ts :: rest ++ d). simpl. f_equal. rewrite <- app_assoc. f_equal. exact D.
Qed.

Lemma wait_if_needed_mirrored (self : t) (current_time lag : Q) (g : granted) :
  mirrored self -> wait_if_needed self current_time lag = Some g -> mirrored (limiter g).
Proof.
  intros [older Ho]. unfold wait_if_needed.
  destruct (wait_for (requests_per_second self) 1 _ _) as [w1|]; [|discriminate].
  destruct (wait_for (requests_per_2min self) 120 _ _) as [w2|]; [|discriminate].
  intros [= <-]. unfold mirrored. simpl. rewrite Ho.
  destruct (popleft_old_mirrored current_time older (request_times_short self))
    as [older' H].
  exists older'. rewrite H, app_assoc. reflexivity.
Qed.

(** X12: whatever the calls and the clock, the two windows of a limiter hold
    the same recordings: the short window is the tail of the long one. *)
Theorem run_calls_mirrored (self self' : t) (last last' : Q) (calls : list (Q * Q)) :
  mirrored self ->
  run_calls self last calls = Some (self', last') ->
  mirrored self'.
Proof.
  revert self last. induction calls as [|[gap lag] rest IH]; intros self last Hm; simpl.
  - intros [= <- _]. exact Hm.
  - destruct (wait_if_needed self (last + gap) lag) as [g|] eqn:E; [|discriminate].
    apply IH. exact (wait_if_needed_mirrored _ _ _ _ Hm E).
Qed.

Lemma wait_if_needed_sleeps_witness :
  exists g, wait_if_needed one_each (1 # 2) 0 = Some g /\
    0 <= slept_short g <= 1 /\ 0 <= slept_long g <= 120.
Proof.
  eexists. split; [reflexivity|].
  refine (let H := wait_if_needed_sleeps one_each (1 # 2) 0 _ _ eq_refl in
          conj (proj1 H) (proj1 (proj2 H))).
  split; repeat constructor; vm_compute; discriminate.
Defined.

Lemma run_calls_mirrored_witness : mirrored (fst after_burst).
Proof.
  apply (run_calls_mirrored (init 20 100) (fst after_burst) 0 (snd after_burst) burst).
  - exists []. reflexivity.
  - vm_compute. reflexivity.
Defined.

End RateLimitEdgeFacts.

(** ** More on the aggregation *)

Module AggregateRankFacts.
Import Aggregate AggregateVocabulary AggregateFacts.
Local Open Scope Q_scope.

Lemma fold_rank_step_ranked (data : list player_match) (tier_ rank_ : string) (level : Z) :
  String.eqb tier_ "UNRANKED" = false ->
  fold_left rank_step data (tier_, rank_, level) = (tier_, rank_, level).
Proof.
  intros H. induction data as [|m data IH]; simpl; [reflexivity|]. rewrite H. exact IH.
Qed.

Lemma fold_rank_step_unranked (data : list player_match) (rank_ : string) (level : Z) :
  fold_left rank_step data ("UNRANKED", rank_, level) =
  match List.find is_ranked data with
  | Some m => rank_columns m
  | None =>
      match last data with
      | Some m => rank_columns m
      | None => ("UNRANKED", rank_, level)
      end
  end.
Proof.
  revert rank_ level. induction data as [|m data IH]; intros rank_ level; [reflexivity|].
  cbn [fold_left rank_step List.find]. change (String.eqb "UNRANKED" "UNRANKED") with true.
  cbv iota. unfold is_ranked at 1.
  destruct (String.eqb (tier m) "UNRANKED") eqn:E; cbn [negb].
  - apply String.eqb_eq in E. rewrite E, IH.
    destruct (List.find is_ranked data) as [m'|]; [reflexivity|].
    destruct data as [|m2 data'].
    + simpl. unfold rank_columns. rewrite E. reflexivity.
    + change (last (m :: m2 :: data')) with (last (m2 :: data')).
      destruct (last (m2 :: data')) eqn:L; [reflexivity|].
      apply last_None in L. discriminate.
  - apply fold_rank_step_ranked. exact E.
Qed.

(** X13: the tier, rank and level of a summary are those of the first
    swiftplay match whose tier is not UNRANKED; when there is none, those of
    the last swiftplay match; and the defaults when the player has no
    swiftplay match. The ranked matches play no part. *)
Theorem aggregate_rank_source (puuid_ : string)
    (swiftplay_data ranked_data : list player_match) :
  let d := _aggregate_player_data puuid_ swiftplay_data ranked_data in
  (pd_tier d, pd_rank d, pd_summonerLevel d) =
  match List.find is_ranked swiftplay_data with
  | Some m => rank_columns m
  | None =>
      match last swiftplay_data with
      | Some m => rank_columns m
      | None => ("UNRANKED", "UNRANKED", 0%Z)
      end
  end.
Proof.
  intros d. subst d. unfold _aggregate_player_data.
  pose proof (fold_rank_step_unranked swiftplay_data "UNRANKED" 0) as H.
  fold (rank_info swiftplay_data) in H.
  destruct (rank_info swiftplay_data) as [[tier_ rank_] level]. simpl. exact H.
Qed.




Lemma aggregate_rank_source_witness :
  let d := _aggregate_player_data "A" unranked_then_gold [] in
  (pd_tier d, pd_rank d, pd_summonerLevel d) = ("GOLD", "II", 30%Z).
Proof.
  exact (aggregate_rank_source "A" unranked_then_gold []).
Defined.

End AggregateRankFacts.

(** ** The client caches and the rows of a match *)

Module ClientFacts.
Import LeagueBFS SchedulerFacts StoreVocabulary CrawlVocabulary RowVocabulary.

Lemma bind_ok {A B} (m : M A) (k : A -> M B) (self : t) (b : B) (self' : t)
    (ev : list event) :
  bind m k self = (Ok b, self', ev) ->
  exists a self1 ev1 ev2,
    m self = (Ok a, self1, ev1) /\ k a self1 = (Ok b, self', ev2) /\ ev = ev1 ++ ev2.
Proof.
  unfold bind. destruct (m self) as [[[a|e|] self1] ev1]; [|discriminate|discriminate].
  destruct (k a self1) as [[r2 self2] ev2] eqn:Ek. intros [= -> <- <-].
  exists a, self1, ev1, ev2. auto.
Qed.

Lemma add_teammates_fixed (participants : list string) (self : t) :
  Forall (fun p => p ∈ visited_puuids self) participants ->
  add_teammates participants self = self.
Proof.
  induction 1 as [|p ps Hp _ IH]; simpl; [reflexivity|].
  rewrite (bool_decide_eq_true_2 _ Hp). exact IH.
Qed.

Lemma add_teammates_visited_mono (participants : list string) (self : t) (p : string) :
  p ∈ visited_puuids self -> p ∈ visited_puuids (add_teammates participants self).
Proof.
  destruct (add_teammates_grows participants self) as (added & _ & Hv & _).
  rewrite Hv. apply elem_of_union_l.
Qed.

Lemma add_teammates_visits (participants : list string) (self : t) :
  Forall (fun p => p ∈ visited_puuids (add_teammates participants self)) participants.
Proof.
  revert self. induction participants as [|p ps IH]; intros self; simpl; constructor.
  - destruct (bool_decide (p ∈ visited_puuids self)) eqn:E.
    + apply bool_decide_eq_true in E. apply add_teammates_visited_mono, E.
    + apply add_teammates_visited_mono. simpl. apply elem_of_union_l, elem_of_singleton.
      reflexivity.
  - destruct (bool_decide (p ∈ visited_puuids self)); apply IH.
Qed.

Lemma add_teammates_queue (participants : list string) (self : t) (p : string) :
  p ∈ queue (add_teammates participants self) <->
  p ∈ queue self \/ (p ∈ participants /\ p ∉ visited_puuids self).
Proof.
  revert self. induction participants as [|q ps IH]; intros self; simpl.
  - split; [auto|]. intros [H | [H _]]; [exact H|]. apply elem_of_nil in H. contradiction.
  - destruct (bool_decide (q ∈ visited_puuids self)) eqn:E.
    + apply bool_decide_eq_true in E. rewrite IH, elem_of_cons. split.
      * intros [H | [H1 H2]]; auto.
      * intros [H | [[-> | H1] H2]]; auto. contradiction.
    + apply bool_decide_eq_false in E. rewrite IH. simpl.
      rewrite elem_of_app, list_elem_of_singleton, elem_of_cons, not_elem_of_union,
        not_elem_of_singleton.
      split.
      * intros [[H | ->] | [H1 [H2 H3]]]; auto.
      * intros [H | [[-> | H1] H2]]; auto.
        destruct (decide (p = q)) as [-> | Hne]; auto.
Qed.

(** X15: [_add_teammates_to_queue] leaves every participant of the match
    visited, enqueues exactly those that were not visited before, and does
    nothing when it is run again on the same match. *)
Theorem add_teammates_marks_all (participants : list string) (self : t) :
  Forall (fun p => p ∈ visited_puuids (add_teammates participants self)) participants /\
  (forall p, p ∈ queue (add_teammates participants self) <->
             p ∈ queue self \/ (p ∈ participants /\ p ∉ visited_puuids self)) /\
  add_teammates participants (add_teammates participants self)
  = add_teammates participants self.
Proof.
  split; [apply add_teammates_visits|]. split; [apply add_teammates_queue|].
  apply add_teammates_fixed, add_teammates_visits.
Qed.

(** X16: a rank or a mastery that was fetched is answered from the cache from
    then on, without a request and whatever the remote would say now (a
    mastery of [None], the allowed 404, included); a failed request leaves the
    caches as they were. *)
Theorem cached_answers (api api' : remote) (puuid_ : string) (champion_id : Z)
    (self : t) :
  (forall v self1 ev,
     get_player_rank api puuid_ self = (Ok v, self1, ev) ->
     get_player_rank api' puuid_ self1 = (Ok v, self1, [])) /\
  (forall v self1 ev,
     get_champion_mastery api puuid_ champion_id self = (Ok v, self1, ev) ->
     get_champion_mastery api' puuid_ champion_id self1 = (Ok v, self1, [])) /\
  (forall e self1 ev,
     get_player_rank api puuid_ self = (Raise e, self1, ev) ->
     self1 = self /\ ev = [GetPlayerRank puuid_]) /\
  (forall e self1 ev,
     get_champion_mastery api puuid_ champion_id self = (Raise e, self1, ev) ->
     self1 = self /\ ev = [GetChampionMastery puuid_ champion_id]).
Proof.
  unfold get_player_rank, get_champion_mastery, bind, get, effect, modify, ret.
  split; [|split; [|split]].
  - intros v self1 ev.
    destruct (rank_cache (api_client self) !! puuid_) as [c|] eqn:Ec.
    + intros [= <- <- <-]. rewrite Ec. reflexivity.
    + destruct (player_rank api puuid_) as [info|e|]; [|discriminate|discriminate].
      intros [= <- <- <-]. cbn. rewrite lookup_insert_eq. reflexivity.
  - intros v self1 ev.
    destruct (champion_mastery_cache (api_client self) !! (puuid_, champion_id))
      as [c|] eqn:Ec.
    + intros [= <- <- <-]. rewrite Ec. reflexivity.
    + destruct (champion_mastery api puuid_ champion_id) as [m|e|];
        [|discriminate|discriminate].
      intros [= <- <- <-]. cbn. rewrite lookup_insert_eq. reflexivity.
  - intros e self1 ev.
    destruct (rank_cache (api_client self) !! puuid_) as [c|]; [discriminate|].
    destruct (player_rank api puuid_) as [info|e'|]; [discriminate| |discriminate].
    intros [= _ <- <-]. split; reflexivity.
  - intros e self1 ev.
    destruct (champion_mastery_cache (api_client self) !! (puuid_, champion_id))
      as [c|]; [discriminate|].
    destruct (champion_mastery api puuid_ champion_id) as [m|e'|];
      [discriminate| |discriminate].
    intros [= _ <- <-]. split; reflexivity.
Qed.

Lemma caches_grow_refl (self : t) : caches_grow self self.
Proof. split; reflexivity. Qed.

Lemma caches_grow_trans (a b c : t) : caches_grow a b -> caches_grow b c -> caches_grow a c.
Proof. intros [H1 H2] [H3 H4]. split; etrans; eassumption. Qed.

Lemma get_player_rank_spec (api : remote) (puuid_ : string) (self : t)
    (v : list rank_entry) (self1 : t) (ev : list event) :
  get_player_rank api puuid_ self = (Ok v, self1, ev) ->
  caches_grow self self1 /\ rank_cache (api_client self1) !! puuid_ = Some v.
Proof.
  unfold get_player_rank, bind, get, effect, modify, ret.
  destruct (rank_cache (api_client self) !! puuid_) as [c|] eqn:Ec.
  - intros [= <- <- <-]. split; [apply caches_grow_refl | exact Ec].
  - destruct (player_rank api puuid_) as [info|e|]; [|discriminate|discriminate].
    intros [= <- <- <-]. cbn. split; [|apply lookup_insert_eq].
    split; cbn; [|reflexivity]. apply insert_subseteq. exact Ec.
Qed.

Lemma get_champion_mastery_spec (api : remote) (puuid_ : string) (champion_id : Z)
    (self : t) (v : option mastery) (self1 : t) (ev : list event) :
  get_champion_mastery api puuid_ champion_id self = (Ok v, self1, ev) ->
  caches_grow self self1.
Proof.
  unfold get_champion_mastery, bind, get, effect, modify, ret.
  destruct (champion_mastery_cache (api_client self) !! (puuid_, champion_id))
    as [c|] eqn:Ec.
  - intros [= <- <- <-]. apply caches_grow_refl.
  - destruct (champion_mastery api puuid_ champion_id) as [m|e|];
      [|discriminate|discriminate].
    intros [= <- <- <-]. split; cbn; [reflexivity|]. apply insert_subseteq. exact Ec.
Qed.

Lemma ranked_as_grow (self self' : t) (r : player_match) :
  caches_grow self self' -> ranked_as self r -> ranked_as self' r.
Proof.
  intros [H _] (info & Hl & Hr). exists info. split; [|exact Hr].
  exact (lookup_weaken _ _ _ _ Hl H).
Qed.

Lemma extract_loop_rows (api : remote) (match_id : string)
    (participants : list participant) :
  forall player_matches self rows self' ev,
    extract_loop api participants match_id player_matches self = (Ok rows, self', ev) ->
    exists new,
      rows = player_matches ++ new /\
      Forall2 (copied match_id) participants new /\
      Forall (ranked_as self') new /\
      caches_grow self self'.
Proof.
  induction participants as [|p ps IH]; intros acc self rows self' ev; simpl.
  - intros [= <- <- <-]. exists []. rewrite app_nil_r.
    repeat split; try constructor; reflexivity.
  - intros H. apply bind_ok in H as (info & s1 & ev1 & ev2 & Hrank & H & _).
    destruct (get_player_rank_spec _ _ _ _ _ _ Hrank) as [G1 Hl].
    destruct (solo_rank_of info) as [tier_ rank_] eqn:Es.
    apply bind_ok in H as (m & s2 & ev3 & ev4 & Hm & H & _).
    pose proof (get_champion_mastery_spec _ _ _ _ _ _ _ Hm) as G2.
    destruct (IH _ _ _ _ _ H) as (new & -> & Hc & Hr & G3).
    eexists (_ :: new). rewrite <- app_assoc. split; [reflexivity|].
    split; [|split].
    + constructor; [|exact Hc]. repeat split; reflexivity.
    + constructor; [|exact Hr].
      apply (ranked_as_grow s1); [exact (caches_grow_trans _ _ _ G2 G3)|].
      exists info. split; [exact Hl|]. cbn. symmetry. exact Es.
    + exact (caches_grow_trans _ _ _ G1 (caches_grow_trans _ _ _ G2 G3)).
Qed.

(** X17: when [_extract_player_matches] returns, it returns one row per
    participant of the payload, in the order of the payload, with the id of
    the match and the participant's columns; the tier and rank of a row are
    read off the rank payload cached for its player; nothing is written to the
    store, the queue or the visited set. *)
Theorem extract_player_matches_rows (api : remote) (md : match_details)
    (match_id : string) (self : t) (rows : list player_match) (self' : t)
    (ev : list event) :
  _extract_player_matches api md match_id self = (Ok rows, self', ev) ->
  Forall2 (copied match_id) (info_participants md) rows /\
  Forall (ranked_as self') rows /\
  data_manager self' = data_manager self /\ keeps self self'.
Proof.
  intros H. unfold _extract_player_matches in H.
  destruct (extract_loop_rows _ _ _ _ _ _ _ _ H) as (new & -> & Hc & Hr & _).
  split; [exact Hc|]. split; [exact Hr|]. split.
  - refine (proj1 (sat_extract_loop (fun s s' => data_manager s' = data_manager s)
                     _ _ _ api _ _ _ _ _ _ _ H)); try reflexivity.
    intros x y z H1 H2. congruence.
  - refine (proj1 (sat_extract_loop keeps _ _ _ api _ _ _ _ _ _ _ H)).
    + intros s. split; reflexivity.
    + intros x y z [H1 H2] [H3 H4]. split; congruence.
    + intros s c. split; reflexivity.
Qed.

Lemma extract_player_matches_rows_witness :
  exists rows self' ev,
    extracted_m1 = (Ok rows, self', ev) /\
    Forall2 (copied "M1") (info_participants Worlds.m1) rows /\
    Forall (ranked_as self') rows.
Proof.
  destruct extracted_m1 as [[[rows|e|] s] ev] eqn:E;
    [|exfalso; vm_compute in E; discriminate..].
  exists rows, s, ev. split; [reflexivity|].
  destruct (extract_player_matches_rows _ _ _ _ _ _ _ E) as (H1 & H2 & _).
  split; assumption.
Defined.

End ClientFacts.

(** ** The store during a crawl *)

Module StoreCrawlFacts.
Import LeagueBFS SchedulerFacts StoreVocabulary CrawlVocabulary.

Section Store.
Variable S : DataManager.t -> DataManager.t -> Prop.
Hypothesis S_refl : forall d, S d d.
Hypothesis S_trans : forall a b c, S a b -> S b c -> S a c.
Hypothesis S_match_exists :
  forall match_id queue_type d, S d (snd (DataManager.match_exists match_id queue_type d)).
Hypothesis S_save_player_matches :
  forall rows queue_type d d',
    DataManager.save_player_matches rows queue_type d = Ok d' -> S d d'.
Hypothesis S_save_match : forall m queue_type d, S d (DataManager.save_match m queue_type d).
Hypothesis S_save_player : forall p d, S d (DataManager.save_player p d).
Variable api : remote.

Lemma store_step_refl (self : t) : store_step S self self.
Proof. apply S_refl. Qed.

Lemma store_step_trans (a b c : t) :
  store_step S a b -> store_step S b c -> store_step S a c.
Proof. unfold store_step. apply S_trans. Qed.

Lemma store_step_api_client (self : t) (c : RiotAPIClient) :
  store_step S self (set_api_client c self).
Proof. apply S_refl. Qed.

Lemma add_teammates_data_manager (participants : list string) (self : t) :
  data_manager (add_teammates participants self) = data_manager self.
Proof.
  revert self. induction participants as [|p ps IH]; intros self; simpl; [reflexivity|].
  destruct (bool_decide (p ∈ visited_puuids self)); rewrite IH; reflexivity.
Qed.

Lemma sat_bind_get {B} (k : t -> M B) :
  (forall self, sat_at (store_step S) (k self) self) -> sat (store_step S) (bind get k).
Proof.
  intros H self r self' ev. unfold bind, get.
  destruct (k self self) as [[r2 s2] ev2] eqn:E. intros [= <- <- <-].
  exact (H self _ _ _ E).
Qed.

Lemma sat_at_modify_then {B} (f : t -> t) (rest : M B) (self : t) :
  store_step S self (f self) -> sat (store_step S) rest ->
  sat_at (store_step S) (bind (modify f) (fun _ => rest)) self.
Proof.
  intros Hf Hrest r self' ev. unfold bind, modify.
  destruct (rest (f self)) as [[r2 s2] ev2] eqn:E. intros [= <- <- <-].
  destruct (Hrest _ _ _ _ E) as [HR Hev]. split; [|exact Hev].
  exact (store_step_trans _ _ _ Hf HR).
Qed.

Lemma sat_at_effect_then {A B} (e : event) (outcome : res A) (k : A -> M B) (self : t) :
  processing e ->
  (forall a, outcome = Ok a -> sat_at (store_step S) (k a) self) ->
  sat_at (store_step S) (bind (effect e outcome) k) self.
Proof.
  intros He Hk r self' ev. unfold bind, effect. destruct outcome as [a|x|].
  - destruct (k a self) as [[r2 s2] ev2] eqn:E. intros [= <- <- <-].
    destruct (Hk a eq_refl _ _ _ E) as [HR Hev]. split; [exact HR|].
    constructor; assumption.
  - intros [= <- <- <-]. split; [apply store_step_refl | repeat constructor; exact He].
  - intros [= <- <- <-]. split; [apply store_step_refl | repeat constructor; exact He].
Qed.

Lemma sat_process_match_store (puuid_ match_id queue_type : string)
    (add_to_queue_ : bool) (player_match_data : list player_match) :
  sat (store_step S)
      (process_match api puuid_ match_id queue_type add_to_queue_ player_match_data).
Proof.
  pose proof store_step_refl as Rr. pose proof store_step_trans as Rt.
  unfold process_match. apply sat_bind_get. intros self. cbv beta.
  destruct (DataManager.match_exists match_id queue_type (data_manager self))
    as [known dm] eqn:Em.
  apply sat_at_modify_then.
  { unfold store_step. simpl.
    replace dm with (snd (DataManager.match_exists match_id queue_type (data_manager self)))
      by (rewrite Em; reflexivity).
    apply S_match_exists. }
  destruct known.
  { destruct (DataManager.get_player_match_data match_id puuid_ queue_type dm);
      apply sat_ret, Rr. }
  apply (sat_bind _ Rt); [apply sat_get_match_details, Rr|]. intros md.
  apply (sat_bind _ Rt).
  { apply sat_extract_loop; auto using store_step_api_client. }
  intros rows. apply sat_bind_get. intros self1.
  apply sat_at_effect_then; [exact I|]. intros dm1 Hsave.
  apply sat_at_modify_then; [exact (S_save_player_matches _ _ _ _ Hsave)|].
  apply (sat_bind _ Rt); [apply sat_extract_match_info, Rr|]. intros mi.
  apply (sat_bind _ Rt); [apply sat_emit; [exact Rr | exact I]|]. intros _.
  apply (sat_bind _ Rt).
  { apply sat_modify. intros s. apply S_save_match. }
  intros _. destruct (List.find _ rows); [|apply sat_raise, Rr].
  apply (sat_bind _ Rt); [|intros _; apply sat_ret, Rr].
  destruct (add_to_queue_ && String.eqb queue_type "swiftplay"); [|apply sat_ret, Rr].
  unfold _add_teammates_to_queue. apply sat_modify. intros s.
  unfold store_step. rewrite add_teammates_data_manager. apply S_refl.
Qed.

Lemma sat_process_matches_store (puuid_ : string) (match_ids_ : list string)
    (queue_type : string) (add_to_queue_ : bool) (player_match_data : list player_match) :
  sat (store_step S)
      (process_matches_loop api puuid_ match_ids_ queue_type add_to_queue_
         player_match_data).
Proof.
  pose proof store_step_refl as Rr. pose proof store_step_trans as Rt.
  revert player_match_data.
  induction match_ids_ as [|match_id rest IH]; intros pmd; simpl.
  - apply sat_ret, Rr.
  - apply (sat_bind _ Rt); [|apply IH].
    apply (sat_try_except _ Rt); [apply sat_process_match_store|].
    intros e. apply (sat_bind _ Rt); [apply sat_emit; [exact Rr | exact I]|].
    intros _. apply sat_raise, Rr.
Qed.

Lemma sat_process_player_store (puuid_ : string) (add_to_queue_ : bool) :
  sat (store_step S) (_process_player api puuid_ add_to_queue_).
Proof.
  pose proof store_step_refl as Rr. pose proof store_step_trans as Rt.
  unfold _process_player. apply (sat_bind _ Rt); [apply sat_get, Rr|]. intros self.
  destruct (DataManager.player_exists puuid_ (data_manager self)).
  { apply sat_emit; [exact Rr | exact I]. }
  apply (sat_bind _ Rt); [apply sat_get_match_ids, Rr|]. intros ids.
  apply (sat_bind _ Rt); [apply sat_process_matches_store|]. intros sw.
  apply (sat_bind _ Rt); [apply sat_get_match_ids, Rr|]. intros ids'.
  apply (sat_bind _ Rt); [apply sat_process_matches_store|]. intros rk.
  apply (sat_bind _ Rt); [apply sat_emit; [exact Rr | exact I]|]. intros _.
  apply sat_modify. intros s. apply S_save_player.
Qed.

(** From here on the checkpoint is written as well. *)
Hypothesis S_save_queue_state :
  forall queue d, S d (DataManager.save_queue_state queue d).

Lemma bfs_while_store (fuel : nat) :
  forall locals self r locals' self' ev,
    bfs_while api fuel locals self = (r, locals', self', ev) -> store_step S self self'.
Proof.
  induction fuel as [|fuel IH]; intros locals self r locals' self' ev.
  - simpl. destruct (queue self); intros [= <- <- <- <-]; apply store_step_refl.
  - destruct (queue self) as [|c rest] eqn:Hq.
    + simpl. rewrite Hq. intros [= <- <- <- <-]. apply store_step_refl.
    + rewrite (bfs_while_step api fuel locals self c rest Hq).
      destruct (_process_player api c (gate locals rest) (checkpoint rest self))
        as [[r2 s2] ev2] eqn:E.
      rewrite (try_requeue api c _ _ _ _ _ E).
      destruct (sat_process_player_store c _ _ _ _ _ E) as [HR _].
      assert (H0 : store_step S self (checkpoint rest self))
        by apply S_save_queue_state.
      assert (H1 : store_step S self s2) by (eapply store_step_trans; eauto).
      assert (H2 : store_step S self (requeued c s2)).
      { eapply store_step_trans; [exact H1|]. apply S_save_queue_state. }
      destruct r2 as [a|[msg|]|].
      * destruct (bfs_while api fuel (next_locals locals c rest) s2)
          as [[[r3 l3] s3] ev3] eqn:W.
        intros [= <- <- <- <-]. eapply store_step_trans; [exact H1|].
        exact (IH _ _ _ _ _ _ W).
      * intros [= <- <- <- <-]. exact H2.
      * intros [= <- <- <- <-]. exact H1.
      * intros [= <- <- <- <-]. exact H1.
Qed.

Lemma relates_bind {A B} (m : M A) (k : A -> M B) :
  relates (store_step S) m -> (forall a, relates (store_step S) (k a)) ->
  relates (store_step S) (bind m k).
Proof.
  intros Hm Hk self r self' ev. unfold bind.
  destruct (m self) as [[[a|e|] self1] ev1] eqn:Em.
  - destruct (k a self1) as [[r2 self2] ev2] eqn:Ek. intros [= <- <- <-].
    exact (store_step_trans _ _ _ (Hm _ _ _ _ Em) (Hk a _ _ _ _ Ek)).
  - intros [= <- <- <-]. exact (Hm _ _ _ _ Em).
  - intros [= <- <- <-]. exact (Hm _ _ _ _ Em).
Qed.

Lemma sat_relates {A} (m : M A) : sat (store_step S) m -> relates (store_step S) m.
Proof. intros H self r self' ev E. exact (proj1 (H _ _ _ _ E)). Qed.

Lemma relates_ret {A} (a : A) : relates (store_step S) (ret a).
Proof. intros self r self' ev [= <- <- <-]. apply store_step_refl. Qed.

Lemma relates_emit (e : event) : relates (store_step S) (emit e).
Proof. intros self r self' ev [= <- <- <-]. apply store_step_refl. Qed.

Lemma interrupted_store (locals : frame) : relates (store_step S) (interrupted locals).
Proof.
  intros self r self' ev. unfold interrupted.
  destruct (current_puuid locals) as [c|]; [destruct (String.eqb c "")|];
    cbn; intros [= <- <- <-]; unfold store_step; cbn;
    first [apply S_save_queue_state | apply S_refl].
Qed.

Lemma bfs_try_store (fuel : nat) (locals : frame) :
  relates (store_step S) (bfs_try api fuel locals).
Proof.
  intros self r self' ev. unfold bfs_try.
  destruct (bfs_while api fuel locals self) as [[[r1 l1] s1] ev1] eqn:W.
  apply bfs_while_store in W.
  destruct r1 as [a|[msg|]|]; try (intros [= <- <- <-]; exact W).
  destruct (interrupted l1 s1) as [[r2 s2] ev2] eqn:I2. intros [= <- <- <-].
  exact (store_step_trans _ _ _ W (interrupted_store _ _ _ _ _ I2)).
Qed.

Lemma bfs_store (start_puuid : option string) (fuel : nat) :
  relates (store_step S) (bfs api start_puuid fuel).
Proof.
  unfold bfs. apply relates_bind; [|intros _; apply bfs_try_store].
  destruct start_puuid as [p|]; [|apply relates_ret].
  intros self r self' ev [= <- <- <-]. apply S_refl.
Qed.

Lemma restore_store : relates (store_step S) restore.
Proof.
  intros self r self' ev. unfold restore, bind, get.
  destruct (DataManager.load_queue_state (data_manager self)); cbn.
  - intros [= <- <- <-]. apply S_refl.
  - destruct (DataManager.players_file_exists (data_manager self)); cbn;
      intros [= <- <- <-]; apply S_refl.
Qed.

Lemma resume_from_queue_store (fuel : nat) :
  relates (store_step S) (resume_from_queue api fuel).
Proof.
  unfold resume_from_queue. apply relates_bind; [apply restore_store|].
  intros [|]; [apply bfs_store | apply relates_ret].
Qed.

Lemma sample_entries_store (entries : list league_entry) (tier_ division : string)
    (fuel : nat) :
  relates (store_step S) (sample_entries api entries tier_ division fuel).
Proof.
  induction entries as [|entry rest IH]; simpl; [apply relates_ret|].
  apply relates_bind; [apply sat_relates, sat_get, store_step_refl|]. intros self.
  destruct (bool_decide (le_puuid entry ∈ visited_puuids self)); [exact IH|].
  apply relates_bind; [apply sat_relates, sat_get_match_ids, store_step_refl|].
  intros sw.
  apply relates_bind; [apply sat_relates, sat_get_match_ids, store_step_refl|].
  intros rk. destruct sw as [|x sw]; [exact IH|]. destruct rk as [|y rk]; [exact IH|].
  apply relates_bind; [apply relates_emit|]. intros _.
  apply relates_bind; [apply bfs_store|]. intros _. apply relates_ret.
Qed.

Lemma sample_pages_store (budget attempts : nat) (tier_ division : string) (fuel : nat) :
  relates (store_step S) (sample_pages api budget attempts tier_ division fuel).
Proof.
  revert attempts. induction budget as [|budget IH]; intros attempts; simpl;
    [apply relates_ret|].
  apply relates_bind; [apply relates_emit|]. intros _.
  apply relates_bind.
  { intros self r self' ev [= <- <- <-]. apply store_step_refl. }
  intros entries.
  apply relates_bind; [apply sample_entries_store|].
  intros [|]; [apply relates_ret | apply IH].
Qed.

Lemma start_from_division_store (tier_ division : string) (fuel : nat) :
  relates (store_step S) (start_from_division api tier_ division fuel).
Proof.
  unfold start_from_division, _sample_from_division.
  apply relates_bind; [apply relates_emit|]. intros _. apply sample_pages_store.
Qed.

Lemma main_store (a : Main.argv) (disk : DataManager.t) (fuel : nat) :
  S (DataManager._initialize_files disk)
    (data_manager (Main.final (Main.main api a disk fuel))).
Proof.
  unfold Main.main. destruct (negb (Main.parse_args a)); [apply S_refl|].
  destruct (Main.crawl api a fuel) as [m|] eqn:C; [|apply S_refl].
  assert (Hm : relates (store_step S) m).
  { unfold Main.crawl in C. destruct (Main.opt_resume a).
    - injection C as <-. apply resume_from_queue_store.
    - destruct (Main.opt_division a); [|discriminate].
      destruct (Main.opt_tier a); [|discriminate].
      injection C as <-. apply start_from_division_store. }
  destruct (m (init disk)) as [[r s] ev] eqn:E. apply Hm in E.
  destruct r as [u|[msg|]|]; exact E.
Qed.

End Store.
End StoreCrawlFacts.

Module StoreInvariantFacts.
Import LeagueBFS StoreVocabulary CrawlVocabulary StoreFacts StoreCrawlFacts.

Lemma grown_refl {A} (file : option (list A)) : grown file file.
Proof. exists []. rewrite app_nil_r. reflexivity. Qed.

Lemma grown_trans {A} (a b c : option (list A)) : grown a b -> grown b c -> grown a c.
Proof.
  intros [x Hx] [y Hy]. exists (x ++ y). rewrite Hy, Hx, app_assoc. reflexivity.
Qed.

Lemma grown_eq {A} (a b : option (list A)) : b = a -> grown a b.
Proof. intros ->. apply grown_refl. Qed.

Lemma append_only_refl (d : DataManager.t) : append_only d d.
Proof. repeat split; apply grown_refl. Qed.

Lemma append_only_trans (a b c : DataManager.t) :
  append_only a b -> append_only b c -> append_only a c.
Proof.
  intros (A1 & A2 & A3 & A4 & A5) (B1 & B2 & B3 & B4 & B5).
  repeat split; eapply grown_trans; eauto.
Qed.

Lemma append_only_match_exists (match_id queue_type : string) (d : DataManager.t) :
  append_only d (snd (DataManager.match_exists match_id queue_type d)).
Proof.
  destruct (match_exists_same_files match_id queue_type d)
    as (H1 & H2 & H3 & H4 & H5 & _).
  repeat split; apply grown_eq; assumption.
Qed.

Lemma append_only_save_player_matches (rows : list player_match) (queue_type : string)
    (d d' : DataManager.t) :
  DataManager.save_player_matches rows queue_type d = Ok d' -> append_only d d'.
Proof.
  unfold DataManager.save_player_matches.
  destruct (DataManager.player_match_file queue_type d) as [existing|] eqn:Ef;
    [|discriminate].
  destruct (List.filter _ rows) as [|x l].
  - intros [= <-]. apply append_only_refl.
  - intros [= <-]. unfold DataManager.set_player_match_file.
    unfold DataManager.player_match_file in Ef.
    destruct (DataManager.is_swiftplay queue_type); repeat split; simpl;
      try apply grown_refl; exists (x :: l); rewrite Ef; reflexivity.
Qed.

Lemma append_only_save_match (m : match_info) (queue_type : string) (d : DataManager.t) :
  append_only d (DataManager.save_match m queue_type d).
Proof.
  unfold DataManager.save_match, DataManager.set_matches_file, DataManager.matches_file.
  destruct (DataManager.is_swiftplay queue_type); repeat split; simpl;
    try apply grown_refl; exists [m]; unfold DataManager.append, rows_of.
  - destruct (DataManager.swiftplay_matches_file d); reflexivity.
  - destruct (DataManager.ranked_matches_file d); reflexivity.
Qed.

Lemma append_only_save_player (p : player_data) (d : DataManager.t) :
  append_only d (DataManager.save_player p d).
Proof.
  unfold DataManager.save_player, DataManager.set_players_file.
  repeat split; simpl; try apply grown_refl.
  exists [p]. unfold DataManager.append, rows_of.
  destruct (DataManager.players_file d); reflexivity.
Qed.

Lemma append_only_save_queue_state (queue : list string) (d : DataManager.t) :
  append_only d (DataManager.save_queue_state queue d).
Proof. repeat split; apply grown_refl. Qed.

Lemma append_only_initialize_files (disk : DataManager.t) :
  append_only disk (DataManager._initialize_files disk).
Proof.
  destruct disk as [a b c d e q cache].
  destruct a, b, c, d, e; repeat split; exists []; rewrite app_nil_r; reflexivity.
Qed.

(** X18: whatever the command line, the remote and the point where the run
    ends, the rows found on disk at start-up are still there at the end, in
    the same order and at the head of their files: the program only appends to
    its five CSV files. *)
Theorem main_never_loses_rows (api : remote) (a : Main.argv) (disk : DataManager.t)
    (fuel : nat) :
  append_only disk (data_manager (Main.final (Main.main api a disk fuel))).
Proof.
  eapply append_only_trans; [apply append_only_initialize_files|].
  apply (main_store append_only append_only_refl append_only_trans
           append_only_match_exists append_only_save_player_matches
           append_only_save_match append_only_save_player api
           append_only_save_queue_state).
Qed.

Lemma match_ids_of_app (file : option (list match_info)) (m : match_info) (id : string) :
  id ∈ DataManager.match_ids_of file ->
  id ∈ DataManager.match_ids_of (Some (DataManager.append file [m])).
Proof.
  destruct file as [rows|]; simpl.
  - rewrite fmap_app. intros H. apply elem_of_app. left. exact H.
  - intros H. apply elem_of_nil in H. contradiction.
Qed.

Lemma keeps_cache_sound_match_exists (match_id queue_type : string) (d : DataManager.t) :
  keeps_cache_sound d (snd (DataManager.match_exists match_id queue_type d)).
Proof.
  intros Hs. unfold DataManager.match_exists.
  destruct (bool_decide (match_id ∈ DataManager.match_id_cache d)); [exact Hs|].
  destruct (DataManager.matches_file queue_type d) as [df|] eqn:Ef; [|exact Hs].
  destruct (bool_decide (match_id ∈ mi_matchId <$> df)) eqn:Ed; [|exact Hs].
  apply bool_decide_eq_true in Ed. intros id. simpl.
  rewrite elem_of_union, elem_of_singleton. intros [-> | Hin]; [|exact (Hs id Hin)].
  unfold DataManager.matches_file in Ef.
  destruct (DataManager.is_swiftplay queue_type); [left | right]; rewrite Ef; exact Ed.
Qed.

Lemma keeps_cache_sound_save_player_matches (rows : list player_match)
    (queue_type : string) (d d' : DataManager.t) :
  DataManager.save_player_matches rows queue_type d = Ok d' -> keeps_cache_sound d d'.
Proof.
  intros H Hs.
  destruct (save_player_matches_untouched rows queue_type d d' H)
    as (E1 & E2 & _ & _ & E5 & _).
  intros id. rewrite E1, E2, E5. apply Hs.
Qed.

Lemma keeps_cache_sound_save_match (m : match_info) (queue_type : string)
    (d : DataManager.t) :
  keeps_cache_sound d (DataManager.save_match m queue_type d).
Proof.
  intros Hs id. unfold DataManager.save_match, DataManager.set_matches_file,
    DataManager.matches_file.
  destruct (DataManager.is_swiftplay queue_type); simpl; intros Hin;
    destruct (Hs id Hin) as [H | H].
  - left. apply (match_ids_of_app _ m id H).
  - right. exact H.
  - left. exact H.
  - right. apply (match_ids_of_app _ m id H).
Qed.

Lemma cache_sound_initialize_files (disk : DataManager.t) :
  cache_sound (DataManager._initialize_files disk).
Proof.
  intros id. unfold DataManager._initialize_files. simpl.
  rewrite !elem_of_union, !elem_of_list_to_set.
  intros [H | [H | H]]; [right; exact H | left; exact H |].
  apply elem_of_empty in H. contradiction.
Qed.

(** X19: at the end of every run each id of the match cache is the id of a row
    of one of the two matches files, so [match_exists] answers True only for
    matches that are stored. *)
Theorem main_cache_sound (api : remote) (a : Main.argv) (disk : DataManager.t)
    (fuel : nat) :
  let d := data_manager (Main.final (Main.main api a disk fuel)) in
  cache_sound d /\
  forall match_id queue_type,
    fst (DataManager.match_exists match_id queue_type d) = true ->
    match_id ∈ DataManager.match_ids_of (DataManager.swiftplay_matches_file d) \/
    match_id ∈ DataManager.match_ids_of (DataManager.ranked_matches_file d).
Proof.
  intros d.
  assert (Hs : cache_sound d).
  { refine (main_store keeps_cache_sound _ _ keeps_cache_sound_match_exists
              keeps_cache_sound_save_player_matches keeps_cache_sound_save_match
              _ api _ a disk fuel (cache_sound_initialize_files disk)).
    - intros x H. exact H.
    - intros x y z H1 H2 H. exact (H2 (H1 H)).
    - intros p x H. exact H.
    - intros q x H. exact H. }
  split; [exact Hs|]. intros match_id queue_type H.
  apply match_exists_true_iff in H.
  destruct H as [H | H]; [exact (Hs _ H)|].
  unfold DataManager.matches_file in H.
  destruct (DataManager.is_swiftplay queue_type); [left | right]; exact H.
Qed.

Lemma process_player_checkpoint_kept (api : remote) (puuid_ : string)
    (add_to_queue_ : bool) (self : t) r self' ev :
  _process_player api puuid_ add_to_queue_ self = (r, self', ev) ->
  DataManager.queue_state_file (data_manager self')
  = DataManager.queue_state_file (data_manager self).
Proof.
  intros E.
  refine (proj1 (sat_process_player_store keeps_checkpoint _ _ _ _ _ _ api
                   puuid_ add_to_queue_ _ _ _ _ E)); unfold keeps_checkpoint.
  - reflexivity.
  - intros x y z H1 H2. congruence.
  - intros match_id queue_type d.
    destruct (match_exists_same_files match_id queue_type d) as (_ & _ & _ & _ & _ & H).
    exact H.
  - intros rows queue_type d d' H.
    destruct (save_player_matches_untouched rows queue_type d d' H)
      as (_ & _ & _ & H4 & _).
    exact H4.
  - intros m queue_type d. unfold DataManager.save_match, DataManager.set_matches_file.
    destruct (DataManager.is_swiftplay queue_type); reflexivity.
  - reflexivity.
Qed.

(** X20: while a player is processed the checkpoint file is not written: it
    holds what [bfs] saved when it dequeued the player, a queue without the
    player in flight. *)
Theorem process_player_keeps_checkpoint (api : remote) (puuid_ : string)
    (add_to_queue_ : bool) (self : t) :
  DataManager.queue_state_file
    (data_manager (snd (fst (_process_player api puuid_ add_to_queue_ self))))
  = DataManager.queue_state_file (data_manager self).
Proof.
  destruct (_process_player api puuid_ add_to_queue_ self) as [[r s] ev] eqn:E.
  exact (process_player_checkpoint_kept _ _ _ _ _ _ _ E).
Qed.

End StoreInvariantFacts.

(** ** Players that are known, and runs without work *)

Module CrawlEdgeFacts.
Import LeagueBFS SchedulerFacts StoreVocabulary CrawlVocabulary RowVocabulary.
Import TraceVocabulary ClientFacts StoreFacts.

Lemma process_known_player (api : remote) (p : string) (flag : bool) (self : t) :
  DataManager.player_exists p (data_manager self) = true ->
  _process_player api p flag self
  = (Ok tt, self, [Log INFO ("Player " ++ p ++ " already processed")]).
Proof.
  intros H. unfold _process_player, bind, get. rewrite H. reflexivity.
Qed.

Lemma bfs_while_known (api : remote) (fuel : nat) :
  forall locals self,
    Forall (fun p => DataManager.player_exists p (data_manager self) = true)
           (queue self) ->
    (length (queue self) <= fuel)%nat ->
    exists locals' self' ev,
      bfs_while api fuel locals self = (Ok tt, locals', self', ev) /\
      queue self' = [] /\ visited_puuids self' = visited_puuids self /\
      api_client self' = api_client self /\
      same_records (data_manager self) (data_manager self') /\
      DataManager.queue_state_file (data_manager self')
      = match queue self with
        | [] => DataManager.queue_state_file (data_manager self)
        | _ => Some []
        end /\
      Forall bookkeeping ev.
Proof.
  induction fuel as [|fuel IH]; intros locals self Hall Hlen.
  - destruct (queue self) as [|c rest] eqn:Hq; [|simpl in Hlen; lia].
    exists locals, self, []. simpl. rewrite Hq.
    repeat split; auto; constructor.
  - destruct (queue self) as [|c rest] eqn:Hq.
    + exists locals, self, []. simpl. rewrite Hq. repeat split; auto; constructor.
    + rewrite (bfs_while_step api fuel locals self c rest Hq).
      inversion Hall as [|? ? Hc Hrest]; subst.
      pose proof (process_known_player api c (gate locals rest) (checkpoint rest self) Hc)
        as E.
      rewrite (try_requeue api c _ _ _ _ _ E).
      destruct (IH (next_locals locals c rest) (checkpoint rest self))
        as (l' & s' & ev' & W & Q & V & C & R & F & B).
      { exact Hrest. }
      { simpl in Hlen. simpl. lia. }
      rewrite W. eexists _, _, _. split; [reflexivity|].
      split; [exact Q|]. split; [exact V|]. split; [exact C|]. split; [exact R|].
      split.
      * rewrite F. simpl. destruct rest; reflexivity.
      * unfold step_prefix. cbn [app]. repeat (constructor; [exact I|]). exact B.
Qed.

(** X21: a queue of players that all have their summary in Players.csv is
    drained without any request and without any record written: the loop only
    logs, dequeues and writes its checkpoints, the last of which is the empty
    queue. *)
Theorem bfs_while_known_players (api : remote) (fuel : nat) (locals : frame) (self : t) :
  Forall (fun p => DataManager.player_exists p (data_manager self) = true) (queue self) ->
  (length (queue self) <= fuel)%nat ->
  exists locals' self' ev,
    bfs_while api fuel locals self = (Ok tt, locals', self', ev) /\
    queue self' = [] /\ visited_puuids self' = visited_puuids self /\
    same_records (data_manager self) (data_manager self') /\
    (queue self <> [] -> DataManager.load_queue_state (data_manager self') = []) /\
    Forall bookkeeping ev.
Proof.
  intros Hall Hlen.
  destruct (bfs_while_known api fuel locals self Hall Hlen)
    as (l' & s' & ev' & W & Q & V & C & R & F & B).
  exists l', s', ev'. repeat split; auto; try apply R.
  intros Hne. unfold DataManager.load_queue_state. rewrite F.
  destruct (queue self); [contradiction | reflexivity].
Qed.

(** X22: [--resume] without a checkpoint, or with an empty one: the error is
    logged, nothing else is done, and the exit status is 0. *)
Theorem main_resume_without_checkpoint (api : remote) (a : Main.argv)
    (disk : DataManager.t) (fuel : nat) :
  Main.opt_resume a = true -> Main.parse_args a = true ->
  DataManager.load_queue_state disk = [] ->
  Main.main api a disk fuel
  = {| Main.status := Some 0%Z; Main.final := init disk;
       Main.events := [Log ERROR "No saved queue state found"] |}.
Proof.
  intros Hr Hp Hq. unfold Main.main, Main.crawl. rewrite Hp, Hr. cbn [negb].
  unfold resume_from_queue, restore, bind, get.
  change (DataManager.load_queue_state (data_manager (init disk)))
    with (DataManager.load_queue_state disk).
  rewrite Hq. reflexivity.
Qed.


Import Worlds.

Lemma bfs_while_known_players_witness :
  exists locals' self' ev,
    bfs_while api_m1 1 fresh_locals requeued_a = (Ok tt, locals', self', ev) /\
    queue self' = [] /\ visited_puuids self' = visited_puuids requeued_a /\
    same_records (data_manager requeued_a) (data_manager self') /\
    (queue requeued_a <> [] -> DataManager.load_queue_state (data_manager self') = []) /\
    Forall bookkeeping ev.
Proof.
  apply (bfs_while_known_players api_m1 1 fresh_locals requeued_a).
  - change (queue requeued_a) with ["A"]. constructor; [|constructor].
    vm_compute. reflexivity.
  - change (queue requeued_a) with ["A"]. simpl. lia.
Defined.

Lemma main_resume_without_checkpoint_witness :
  Main.main api_m1 resume_argv no_files 5
  = {| Main.status := Some 0%Z; Main.final := init no_files;
       Main.events := [Log ERROR "No saved queue state found"] |}.
Proof.
  apply (main_resume_without_checkpoint api_m1 resume_argv no_files 5); reflexivity.
Defined.


End CrawlEdgeFacts.

(** ** Sampling a division *)

Module SamplingFacts.
Import LeagueBFS SchedulerFacts TraceVocabulary.

Lemma traces_bind {A B} (P1 P2 P : list event -> Prop) (m : M A) (k : A -> M B) :
  traces P1 m -> (forall a, traces P2 (k a)) ->
  (forall e1, P1 e1 -> P e1) ->
  (forall e1 e2, P1 e1 -> P2 e2 -> P (e1 ++ e2)) ->
  traces P (bind m k).
Proof.
  intros Hm Hk H1 H12 self r self' ev. unfold bind.
  destruct (m self) as [[[a|e|] self1] ev1] eqn:Em.
  - destruct (k a self1) as [[r2 self2] ev2] eqn:Ek. intros [= <- <- <-].
    exact (H12 _ _ (Hm _ _ _ _ Em) (Hk a _ _ _ _ Ek)).
  - intros [= <- <- <-]. exact (H1 _ (Hm _ _ _ _ Em)).
  - intros [= <- <- <-]. exact (H1 _ (Hm _ _ _ _ Em)).
Qed.

Lemma no_league_bind {A B} (m : M A) (k : A -> M B) :
  traces no_league m -> (forall a, traces no_league (k a)) -> traces no_league (bind m k).
Proof.
  intros Hm Hk. apply (traces_bind no_league no_league); auto.
  intros e1 e2 H1 H2. apply Forall_app. split; assumption.
Qed.

Lemma processing_no_league (ev : list event) : Forall processing ev -> no_league ev.
Proof.
  intros H. eapply Forall_impl; [exact H|]. intros e. destruct e; simpl; auto.
  contradiction.
Qed.

Lemma no_league_count (ev : list event) : no_league ev -> league_requests ev = 0%nat.
Proof.
  unfold league_requests. induction 1 as [|e ev He _ IH]; simpl; [reflexivity|].
  rewrite He. exact IH.
Qed.

Lemma league_requests_app (a b : list event) :
  league_requests (a ++ b) = (league_requests a + league_requests b)%nat.
Proof. unfold league_requests. rewrite List.filter_app, length_app. reflexivity. Qed.

Lemma no_league_page_of (api : remote) (tier_ division : string) (first count : nat)
    (ev : list event) :
  no_league ev -> Forall (page_of api tier_ division first count) ev.
Proof.
  intros H. eapply Forall_impl; [exact H|]. intros e. destruct e; simpl; auto.
  discriminate.
Qed.

Section WithRemote.
Variable api : remote.

Lemma bfs_while_no_league (fuel : nat) :
  forall locals self r locals' self' ev,
    bfs_while api fuel locals self = (r, locals', self', ev) -> no_league ev.
Proof.
  induction fuel as [|fuel IH]; intros locals self r locals' self' ev.
  - simpl. destruct (queue self); intros [= <- <- <- <-]; constructor.
  - destruct (queue self) as [|c rest] eqn:Hq.
    + simpl. rewrite Hq. intros [= <- <- <- <-]. constructor.
    + rewrite (bfs_while_step api fuel locals self c rest Hq).
      destruct (_process_player api c (gate locals rest) (checkpoint rest self))
        as [[r2 s2] ev2] eqn:E.
      rewrite (try_requeue api c _ _ _ _ _ E).
      pose proof (processing_no_league _ (process_player_quiet api _ _ _ _ _ _ E)) as Hp.
      destruct r2 as [a|[msg|]|].
      * destruct (bfs_while api fuel (next_locals locals c rest) s2)
          as [[[r3 l3] s3] ev3] eqn:W.
        intros [= <- <- <- <-]. unfold no_league. cbn [step_prefix app].
        repeat (constructor; [reflexivity|]).
        apply Forall_app. split; [exact Hp | exact (IH _ _ _ _ _ _ W)].
      * intros [= <- <- <- <-]. unfold no_league. cbn [step_prefix app].
        repeat (constructor; [reflexivity|]).
        apply Forall_app. split; [exact Hp | repeat constructor].
      * intros [= <- <- <- <-]. unfold no_league. cbn [step_prefix app].
        repeat (constructor; [reflexivity|]). exact Hp.
      * intros [= <- <- <- <-]. unfold no_league. cbn [step_prefix app].
        repeat (constructor; [reflexivity|]). exact Hp.
Qed.

Lemma bfs_no_league (start_puuid : option string) (fuel : nat) :
  traces no_league (bfs api start_puuid fuel).
Proof.
  unfold bfs. apply no_league_bind.
  - destruct start_puuid; intros self r self' ev [= <- <- <-]; constructor.
  - intros _ self r self' ev. unfold bfs_try.
    destruct (bfs_while api fuel _ self) as [[[r1 l1] s1] ev1] eqn:W.
    apply bfs_while_no_league in W.
    destruct r1 as [a|[msg|]|]; try (intros [= <- <- <-]; exact W).
    unfold interrupted.
    destruct (current_puuid l1) as [c|]; [destruct (String.eqb c "")|]; cbn;
      intros [= <- <- <-]; apply Forall_app; split; try exact W; repeat constructor.
Qed.

Lemma get_match_ids_no_league (puuid_ queue_type : string) :
  traces no_league (get_match_ids api puuid_ queue_type).
Proof. intros self r self' ev [= <- <- <-]. repeat constructor. Qed.

Lemma sample_entries_no_league (entries : list league_entry) (tier_ division : string)
    (fuel : nat) :
  traces no_league (sample_entries api entries tier_ division fuel).
Proof.
  induction entries as [|entry rest IH]; simpl.
  - intros self r self' ev [= <- <- <-]. constructor.
  - apply no_league_bind; [intros self r self' ev [= <- <- <-]; constructor|].
    intros self. destruct (bool_decide (le_puuid entry ∈ visited_puuids self)); [exact IH|].
    apply no_league_bind; [apply get_match_ids_no_league|]. intros sw.
    apply no_league_bind; [apply get_match_ids_no_league|]. intros rk.
    destruct sw as [|x sw]; [exact IH|]. destruct rk as [|y rk]; [exact IH|].
    apply no_league_bind; [intros self1 r self' ev [= <- <- <-]; repeat constructor|].
    intros _. apply no_league_bind; [apply bfs_no_league|].
    intros _ self1 r self' ev [= <- <- <-]. constructor.
Qed.

Lemma page_of_weaken (tier_ division : string) (first count : nat) (ev : list event) :
  Forall (page_of api tier_ division (S first) count) ev ->
  Forall (page_of api tier_ division first (S count)) ev.
Proof.
  intros H. eapply Forall_impl; [exact H|]. intros e. destruct e; simpl; auto.
  intros (Ht & Hd & k & Hk & Hp). repeat split; auto. exists k. split; [lia | exact Hp].
Qed.

Lemma sample_pages_requests (budget : nat) (tier_ division : string) (fuel : nat) :
  forall attempts,
    traces (fun ev => (league_requests ev <= budget)%nat /\
                      Forall (page_of api tier_ division attempts budget) ev)
           (sample_pages api budget attempts tier_ division fuel).
Proof.
  induction budget as [|budget IH]; intros attempts; simpl.
  - intros self r self' ev [= <- <- <-]. split; [reflexivity | constructor].
  - apply (traces_bind no_league
             (fun ev => (league_requests ev <= S budget)%nat /\
                        Forall (page_of api tier_ division attempts (S budget)) ev)).
    + intros self r self' ev [= <- <- <-]. repeat constructor.
    + intros _.
      apply (traces_bind
               (fun ev => ev = [GetLeagueEntries tier_ division (randint api attempts)])
               (fun ev => (league_requests ev <= budget)%nat /\
                          Forall (page_of api tier_ division (S attempts) budget) ev)).
      * intros self r self' ev [= <- <- <-]. reflexivity.
      * intros entries.
        apply (traces_bind no_league
                 (fun ev => (league_requests ev <= budget)%nat /\
                            Forall (page_of api tier_ division (S attempts) budget) ev)).
        -- apply sample_entries_no_league.
        -- intros [|]; [|apply IH].
           intros self r self' ev [= <- <- <-].
           split; [unfold league_requests; simpl; lia | constructor].
        -- intros e1 H1. rewrite (no_league_count _ H1).
           split; [lia | apply no_league_page_of; exact H1].
        -- intros e1 e2 H1 [H2 H3]. rewrite league_requests_app, (no_league_count _ H1).
           split; [exact H2|]. apply Forall_app. split; [|exact H3].
           apply no_league_page_of; exact H1.
      * intros e1 ->. split; [unfold league_requests; simpl; lia|].
        constructor; [|constructor].
        simpl. repeat split. exists attempts. split; [lia | reflexivity].
      * intros e1 e2 -> [H2 H3].
        split; [rewrite league_requests_app; unfold league_requests at 1; simpl; lia|].
        constructor.
        -- simpl. repeat split. exists attempts. split; [lia | reflexivity].
        -- apply page_of_weaken. exact H3.
    + intros e1 H1. rewrite (no_league_count _ H1).
      split; [lia | apply no_league_page_of; exact H1].
    + intros e1 e2 H1 [H2 H3]. rewrite league_requests_app, (no_league_count _ H1).
      split; [exact H2|]. apply Forall_app. split; [|exact H3].
      apply no_league_page_of; exact H1.
Qed.

(** X24: sampling a division asks for at most five pages of league entries,
    all of that division, the pages being the first draws of [randint]; the
    crawl started from a candidate asks for none. *)
Theorem sample_from_division_pages (tier_ division : string) (fuel : nat) (self : t) :
  (league_requests (snd (_sample_from_division api tier_ division fuel self)) <= 5)%nat /\
  Forall (page_of api tier_ division 0 5)
         (snd (_sample_from_division api tier_ division fuel self)) /\
  forall start_puuid, no_league (snd (bfs api start_puuid fuel self)).
Proof.
  destruct (_sample_from_division api tier_ division fuel self) as [[r s] ev] eqn:E.
  destruct (sample_pages_requests 5 tier_ division fuel 0 _ _ _ _ E) as [H1 H2].
  split; [exact H1|]. split; [exact H2|]. intros start_puuid.
  destruct (bfs api start_puuid fuel self) as [[r' s'] ev'] eqn:B.
  exact (bfs_no_league _ _ _ _ _ _ B).
Qed.

End WithRemote.
End SamplingFacts.

(** ** The order of the record writes *)

Module OrderFacts.
Import LeagueBFS SchedulerFacts TraceVocabulary OrderVocabulary SamplingFacts.

Lemma rows_first_weaken (prev : option event) (ev : list event) :
  rows_first None ev -> rows_first prev ev.
Proof.
  destruct ev as [|e tl]; simpl; [auto|]. intros [H1 H2]. split; [|exact H2].
  destruct e; auto. destruct H1 as [rows H1]. discriminate.
Qed.

Lemma rows_first_app (prev : option event) (a b : list event) :
  rows_first prev a -> rows_first None b -> rows_first prev (a ++ b).
Proof.
  revert prev. induction a as [|e a IH]; intros prev; simpl.
  - intros _. apply rows_first_weaken.
  - intros [H1 H2] Hb. split; [exact H1 | apply IH; assumption].
Qed.

Lemma rows_first_quiet (prev : option event) (ev : list event) :
  Forall writes_no_match ev -> rows_first prev ev.
Proof.
  intros H. revert prev. induction H as [|e ev He _ IH]; intros prev; simpl; [exact I|].
  split; [destruct e; auto; contradiction | apply IH].
Qed.

Lemma rows_first_bind {A B} (m : M A) (k : A -> M B) :
  traces (rows_first None) m -> (forall a, traces (rows_first None) (k a)) ->
  traces (rows_first None) (bind m k).
Proof.
  intros Hm Hk. apply (traces_bind (rows_first None) (rows_first None)); auto.
  intros e1 e2. apply rows_first_app.
Qed.

Lemma traces_silent {A} (P : list event -> Prop) (m : M A) :
  P [] -> (forall self, snd (m self) = []) -> traces P m.
Proof.
  intros HP Hm self r self' ev E. pose proof (Hm self) as H. rewrite E in H.
  simpl in H. subst ev. exact HP.
Qed.

Section WithRemote.
Variable api : remote.

Lemma extract_loop_writes_nothing (participants : list participant) (match_id : string)
    (player_matches : list player_match) :
  traces (rows_first None) (extract_loop api participants match_id player_matches).
Proof.
  intros self r self' ev E. apply rows_first_quiet.
  assert (H : Forall processing ev /\ Forall writes_no_match ev); [|tauto].
  revert player_matches self r self' ev E.
  induction participants as [|p ps IH]; intros acc self r self' ev; simpl.
  - intros [= <- <- <-]. split; constructor.
  - unfold bind at 1.
    destruct (get_player_rank api (p_puuid p) self) as [[r1 s1] ev1] eqn:E1.
    assert (H1 : Forall writes_no_match ev1 /\ Forall processing ev1).
    { unfold get_player_rank, bind, get, effect, modify, ret in E1.
      destruct (rank_cache (api_client self) !! p_puuid p).
      - injection E1 as <- <- <-. split; constructor.
      - destruct (player_rank api (p_puuid p)); injection E1 as <- <- <-;
          split; repeat constructor. }
    destruct r1 as [info|e|]; try (intros [= <- <- <-]; tauto).
    destruct (solo_rank_of info) as [tier_ rank_]. unfold bind at 1.
    destruct (get_champion_mastery api (p_puuid p) (p_championId p) s1)
      as [[r2 s2] ev2] eqn:E2.
    assert (H2 : Forall writes_no_match ev2 /\ Forall processing ev2).
    { unfold get_champion_mastery, bind, get, effect, modify, ret in E2.
      destruct (champion_mastery_cache (api_client s1) !! _).
      - injection E2 as <- <- <-. split; constructor.
      - destruct (champion_mastery api (p_puuid p) (p_championId p));
          injection E2 as <- <- <-; split; repeat constructor. }
    destruct r2 as [m|e|].
    + destruct (extract_loop api ps match_id _ s2) as [[r3 s3] ev3] eqn:E3.
      intros [= <- <- <-]. destruct (IH _ _ _ _ _ E3) as [P3 W3].
      split; repeat (apply Forall_app; split); tauto.
    + intros [= <- <- <-]. split; apply Forall_app; tauto.
    + intros [= <- <- <-]. split; apply Forall_app; tauto.
Qed.

Lemma process_match_rows_first (puuid_ match_id queue_type : string)
    (add_to_queue_ : bool) (player_match_data : list player_match) :
  traces (rows_first None)
         (process_match api puuid_ match_id queue_type add_to_queue_ player_match_data).
Proof.
  unfold process_match. apply rows_first_bind; [apply traces_silent; auto; exact I|].
  intros self.
  destruct (DataManager.match_exists match_id queue_type (data_manager self))
    as [known dm].
  apply rows_first_bind; [apply traces_silent; auto; exact I|]. intros _.
  destruct known.
  { destruct (DataManager.get_player_match_data match_id puuid_ queue_type dm);
      apply traces_silent; auto; exact I. }
  apply rows_first_bind.
  { intros s r s' ev [= <- <- <-]. apply rows_first_quiet. repeat constructor. }
  intros md. apply rows_first_bind; [apply extract_loop_writes_nothing|].
  intros rows. apply rows_first_bind; [apply traces_silent; auto; exact I|].
  intros self1.
  apply (traces_bind
           (fun ev => ev = [SavePlayerMatches rows queue_type])
           (rows_first (Some (SavePlayerMatches rows queue_type)))).
  - intros s r s' ev [= <- <- <-]. reflexivity.
  - intros dm1.
    apply (traces_bind (fun ev => ev = [])
             (rows_first (Some (SavePlayerMatches rows queue_type)))).
    + intros s r s' ev [= <- <- <-]. reflexivity.
    + intros _.
      apply (traces_bind (fun ev => ev = [])
               (rows_first (Some (SavePlayerMatches rows queue_type)))).
      * unfold _extract_match_info. destruct (info_participants md);
          intros s r s' ev [= <- <- <-]; reflexivity.
      * intros mi.
        apply (traces_bind (fun ev => ev = [SaveMatch mi queue_type])
                 (rows_first None)).
        -- intros s r s' ev [= <- <- <-]. reflexivity.
        -- intros _. apply rows_first_bind; [apply traces_silent; auto; exact I|].
           intros _. destruct (List.find _ rows);
             [|apply traces_silent; auto; exact I].
           apply rows_first_bind; [|intros _; apply traces_silent; auto; exact I].
           destruct (add_to_queue_ && String.eqb queue_type "swiftplay");
             apply traces_silent; auto; exact I.
        -- intros e1 ->. simpl. split; [eexists; reflexivity | exact I].
        -- intros e1 e2 -> H2. simpl. split; [eexists; reflexivity|].
           apply rows_first_weaken. exact H2.
      * intros e1 ->. exact I.
      * intros e1 e2 -> H2. exact H2.
    + intros e1 ->. exact I.
    + intros e1 e2 -> H2. exact H2.
  - intros e1 ->. simpl. auto.
  - intros e1 e2 -> H2. simpl. split; [exact I | exact H2].
Qed.

Lemma process_matches_rows_first (puuid_ : string) (match_ids_ : list string)
    (queue_type : string) (add_to_queue_ : bool) (player_match_data : list player_match) :
  traces (rows_first None)
         (process_matches_loop api puuid_ match_ids_ queue_type add_to_queue_
            player_match_data).
Proof.
  revert player_match_data.
  induction match_ids_ as [|match_id rest IH]; intros pmd; simpl.
  - apply traces_silent; auto; exact I.
  - apply rows_first_bind; [|apply IH].
    intros self r self' ev. unfold try_except.
    destruct (process_match api puuid_ match_id queue_type add_to_queue_ pmd self)
      as [[r1 s1] ev1] eqn:E.
    apply process_match_rows_first in E.
    destruct r1 as [a|[msg|]|]; try (intros [= <- <- <-]; exact E).
    cbn. intros [= <- <- <-]. apply rows_first_app; [exact E|]. simpl. auto.
Qed.

Lemma process_player_rows_first (puuid_ : string) (add_to_queue_ : bool) :
  traces (rows_first None) (_process_player api puuid_ add_to_queue_).
Proof.
  unfold _process_player. apply rows_first_bind; [apply traces_silent; auto; exact I|].
  intros self. destruct (DataManager.player_exists puuid_ (data_manager self)).
  { intros s r s' ev [= <- <- <-]. simpl. auto. }
  apply rows_first_bind.
  { intros s r s' ev [= <- <- <-]. simpl. auto. }
  intros ids. apply rows_first_bind; [apply process_matches_rows_first|].
  intros sw. apply rows_first_bind.
  { intros s r s' ev [= <- <- <-]. simpl. auto. }
  intros ids'. apply rows_first_bind; [apply process_matches_rows_first|].
  intros rk. apply rows_first_bind.
  { intros s r s' ev [= <- <- <-]. simpl. auto. }
  intros _. apply traces_silent; auto; exact I.
Qed.

Lemma bfs_while_rows_first (fuel : nat) :
  forall locals self r locals' self' ev,
    bfs_while api fuel locals self = (r, locals', self', ev) -> rows_first None ev.
Proof.
  induction fuel as [|fuel IH]; intros locals self r locals' self' ev.
  - simpl. destruct (queue self); intros [= <- <- <- <-]; exact I.
  - destruct (queue self) as [|c rest] eqn:Hq.
    + simpl. rewrite Hq. intros [= <- <- <- <-]. exact I.
    + rewrite (bfs_while_step api fuel locals self c rest Hq).
      destruct (_process_player api c (gate locals rest) (checkpoint rest self))
        as [[r2 s2] ev2] eqn:E.
      rewrite (try_requeue api c _ _ _ _ _ E).
      apply process_player_rows_first in E.
      assert (Hpre : forall tl, rows_first None tl ->
                rows_first None (step_prefix locals c rest ++ tl)).
      { intros tl H. apply rows_first_app; [|exact H]. simpl. auto. }
      destruct r2 as [a|[msg|]|].
      * destruct (bfs_while api fuel (next_locals locals c rest) s2)
          as [[[r3 l3] s3] ev3] eqn:W.
        intros [= <- <- <- <-]. apply Hpre.
        apply rows_first_app; [exact E | exact (IH _ _ _ _ _ _ W)].
      * intros [= <- <- <- <-]. apply Hpre.
        apply rows_first_app; [exact E|]. simpl. auto.
      * intros [= <- <- <- <-]. apply Hpre. exact E.
      * intros [= <- <- <- <-]. apply Hpre. exact E.
Qed.

(** X25: in every run of [bfs] a row is written to a matches file only right
    after the participant rows of a match were handed to [save_player_matches]
    for the same category, with nothing in between. *)
Theorem bfs_saves_rows_before_match (start_puuid : option string) (fuel : nat)
    (self : t) :
  rows_first None (snd (bfs api start_puuid fuel self)).
Proof.
  destruct (bfs api start_puuid fuel self) as [[r s] ev] eqn:B. simpl.
  revert B. unfold bfs.
  assert (H : traces (rows_first None)
                (bfs_try api fuel
                   {| iterations := 0; add_to_queue := true; current_puuid := None |})).
  { intros s0 r0 s0' ev0. unfold bfs_try.
    destruct (bfs_while api fuel _ s0) as [[[r1 l1] s1] ev1] eqn:W.
    apply bfs_while_rows_first in W.
    destruct r1 as [a|[msg|]|]; try (intros [= <- <- <-]; exact W).
    unfold interrupted.
    destruct (current_puuid l1) as [c|]; [destruct (String.eqb c "")|]; cbn;
      intros [= <- <- <-]; (apply rows_first_app; [exact W|]); simpl; auto. }
  intros B. revert B. apply rows_first_bind; [|intros _; exact H].
  destruct start_puuid; apply traces_silent; auto; exact I.
Qed.

End WithRemote.
End OrderFacts.

(** ** The checkpoint when the crawl ends *)

Module CheckpointFacts.
Import LeagueBFS SchedulerFacts CrawlVocabulary CheckpointVocabulary StoreInvariantFacts.

Section WithRemote.
Variable api : remote.



End WithRemote.


End CheckpointFacts.

(** ** The rank categories of the analysis *)

Module CommonFacts.
Import Common.

Lemma index_of_lookup (value : string) (categories : list string) (i : nat) :
  index_of value categories = Some i -> categories !! i = Some value.
Proof.
  revert i. induction categories as [|c rest IH]; intros i; simpl; [discriminate|].
  destruct (String.eqb value c) eqn:E.
  - intros [= <-]. apply String.eqb_eq in E. subst. reflexivity.
  - destruct (index_of value rest) as [k|]; [|discriminate].
    intros [= <-]. simpl. apply IH. reflexivity.
Qed.

Lemma index_of_none (value : string) (categories : list string) :
  index_of value categories = None <-> value ∉ categories.
Proof.
  induction categories as [|c rest IH]; simpl.
  - split; [intros _; apply not_elem_of_nil | reflexivity].
  - rewrite not_elem_of_cons. destruct (String.eqb value c) eqn:E.
    + apply String.eqb_eq in E. split; [discriminate | intros [H _]; contradiction].
    + apply String.eqb_neq in E.
      destruct (index_of value rest) as [k|]; simpl.
      * split; [discriminate|]. intros [_ H]. apply IH in H. discriminate.
      * split; [|reflexivity]. intros _. split; [exact E | apply IH; reflexivity].
Qed.

(** X27: the categories of [full_rank] are pairwise distinct; the division
    number [j] (I, II, III, IV) of the tier number [i] of the crawler's list
    (DIAMOND first, IRON last) gets the code [28 - 4 i - j], so that codes are
    ordered by tier and, within a tier, from IV up to I; a row without solo
    rank gets the lowest code; and a value gets no code (NaN) exactly when it
    is not one of the categories. *)
Theorem full_rank_codes :
  NoDup rank_order /\
  (forall tier_ division i j,
     index_of tier_ Main.tier_choices = Some i ->
     index_of division Main.division_choices = Some j ->
     astype_rank (full_rank tier_ division) = Some (28 - 4 * i - j)%nat) /\
  (forall rank_info,
     List.find (fun entry => String.eqb (queueType entry) "RANKED_SOLO_5x5") rank_info
     = None ->
     astype_rank (full_rank (fst (LeagueBFS.solo_rank_of rank_info))
                            (snd (LeagueBFS.solo_rank_of rank_info))) = Some 0%nat) /\
  (forall tier_ rank_,
     astype_rank (full_rank tier_ rank_) = None <-> full_rank tier_ rank_ ∉ rank_order).
Proof.
  split; [|split; [|split]].
  - apply (bool_decide_unpack _). vm_compute. exact I.
  - intros tier_ division i j Ht Hd.
    apply index_of_lookup in Ht, Hd.
    repeat (destruct i as [|i]; simpl in Ht; try discriminate);
      injection Ht as <-;
      repeat (destruct j as [|j]; simpl in Hd; try discriminate);
      injection Hd as <-; reflexivity.
  - intros rank_info H. unfold LeagueBFS.solo_rank_of.
    destruct rank_info as [|e rest]; [reflexivity|]. rewrite H. reflexivity.
  - intros tier_ rank_. apply index_of_none.
Qed.

Lemma full_rank_codes_witness :
  astype_rank (full_rank "GOLD" "II") = Some 15%nat.
Proof.
  exact (proj1 (proj2 full_rank_codes) "GOLD" "II" 3%nat 1%nat eq_refl eq_refl).
Defined.

End CommonFacts.

(** ** Merging the shards *)

Module DataAggregatorFacts.
Import DataAggregator.

Section Facts.
Context {A : Type} `{EqDecision A}.







Variable read_csv : string -> option (list A).


End Facts.


End DataAggregatorFacts.
